(** * Browser acceptance scripts of the villa marketplace: a shallow embedding

    The repository holds four Playwright scripts
    (testsprite_tests/TC004, TC005, TC007, TC012).  Each defines one
    coroutine [run_test] of the shape

      pw = browser = context = None
      try:     acquire session; navigate; soft waits; scenario steps
      finally: close context, browser, engine (each if it was acquired)

    The browser is external.  It is modelled as a [World]: an oracle that
    answers the k-th interaction of a run.  The scripts become programs of
    a state-and-exception monad over a trace of interactions and the
    local variables [pw], [browser], [context], [page]. *)

From Stdlib Require Import ZArith List String Ascii Bool Lia PeanoNat.
Import ListNotations.
Local Open Scope string_scope.
Local Open Scope Z_scope.

Set Implicit Arguments.

(** ** Handles and values exchanged with the browser engine *)

Definition engine := nat.
Definition browser := nat.
Definition context := nat.
Definition page := nat.
Definition frame := nat.
(** Element and JS handles are opaque identifiers chosen by the engine. *)
Definition elem := list nat.
Definition jshandle := list nat.

(** Result of [JSHandle.json_value()]. *)
Inductive jsval :=
| JNull
| JNumber (z : Z)
| JString (s : string).

(** [playwright.async_api.Error] and its subclass [TimeoutError]. *)
Inductive pw_error :=
| PwError (msg : string)
| PwTimeoutError (msg : string).

(** ** Python exceptions *)

Inductive exn_class :=
| NameError
| UnboundLocalError
| AssertionError
| ValueError
| AttributeError
| IndexError
| PlaywrightError
| PlaywrightTimeoutError.

(** An exception object: class, message and [__context__]. *)
#[warnings="-register-all"]
Inductive exn :=
| Exn (cls : exn_class) (msg : string) (ctx : option exn).

Definition exn_cls (e : exn) : exn_class := let 'Exn c _ _ := e in c.
Definition exn_msg (e : exn) : string := let 'Exn _ m _ := e in m.
Definition exn_context (e : exn) : option exn := let 'Exn _ _ c := e in c.

(** Raising [e] while [handled] is being handled sets [e.__context__]. *)
Definition with_context (handled : option exn) (e : exn) : exn :=
  match handled with
  | None => e
  | Some h => Exn (exn_cls e) (exn_msg e) (Some h)
  end.

Definition exn_of_pw (e : pw_error) : exn :=
  match e with
  | PwError m => Exn PlaywrightError m None
  | PwTimeoutError m => Exn PlaywrightTimeoutError m None
  end.

(** [isinstance(e, async_api.Error)]: TimeoutError derives from Error. *)
Definition is_playwright_error (e : exn) : bool :=
  match exn_cls e with
  | PlaywrightError | PlaywrightTimeoutError => true
  | _ => false
  end.

(** ** Interactions with the engine *)

(** Awaited API calls; each may fail with a Playwright error. *)
Inductive call : Type -> Type :=
| PlaywrightStart : call engine
| ChromiumLaunch (pw : engine) (headless : bool) (args : list string) : call browser
| NewContext (b : browser) : call context
| NewPage (c : context) : call page
| Goto (p : page) (url : string) (wait_until : option string) (timeout : Z) : call unit
| PageWaitForLoadState (p : page) (state : string) (timeout : Z) : call unit
| FrameWaitForLoadState (f : frame) (state : string) (timeout : Z) : call unit
| MouseWheel (p : page) (dx dy : Z) : call unit
| WaitForTimeout (p : page) (ms : Z) : call unit
| LocatorClick (p : page) (selector : string) (nth : nat) (timeout : Z) : call unit
| LocatorFill (p : page) (selector : string) (nth : nat) (text : string) : call unit
| PageQuerySelectorAll (p : page) (selector : string) : call (list elem)
| ElemQuerySelector (e : elem) (selector : string) : call (option elem)
| ElemQuerySelectorAll (e : elem) (selector : string) : call (list elem)
| InnerText (e : elem) : call string
| GetProperty (e : elem) (name : string) : call jshandle
| JsonValue (h : jshandle) : call jsval
| ContextClose (c : context) : call unit
| BrowserClose (b : browser) : call unit
| PlaywrightStop (pw : engine) : call unit.

(** Synchronous properties; they return a snapshot and do not fail. *)
Inductive query : Type -> Type :=
| PageFrames (p : page) : query (list frame)
| ContextPages (c : context) : query (list page).

Inductive event :=
| EvCall (A : Type) (c : call A) (r : pw_error + A)
| EvQuery (A : Type) (q : query A) (r : A)
| EvSetDefaultTimeout (c : context) (ms : Z)
| EvSleep (secs : Z).

(** The browser and the application under test: the answer to the
    interaction issued when [k] interactions have already happened. *)
Record World := {
  respond : forall A, nat -> call A -> pw_error + A;
  observe : forall A, nat -> query A -> A
}.

(** ** Script state: the interaction trace and the locals of [run_test] *)

Record State := {
  trace : list event;
  pw : option engine;
  browser_ : option browser;
  context_ : option context;
  page_ : option page
}.

(** Lines 5-7: [pw = None; browser = None; context = None]; [page] unbound. *)
Definition init : State :=
  {| trace := []; pw := None; browser_ := None; context_ := None; page_ := None |}.

Definition log (e : event) (st : State) : State :=
  {| trace := trace st ++ [e]; pw := pw st; browser_ := browser_ st;
     context_ := context_ st; page_ := page_ st |}.

(** ** The monad of script fragments *)

Definition M (A : Type) : Type := State -> (exn + A) * State.

Definition ret {A} (a : A) : M A := fun st => (inr a, st).

Definition raise_ {A} (e : exn) : M A := fun st => (inl e, st).

Definition bind {A B} (m : M A) (f : A -> M B) : M B :=
  fun st =>
    match m st with
    | (inr a, st') => f a st'
    | (inl e, st') => (inl e, st')
    end.

Declare Scope script_scope.
Delimit Scope script_scope with script.
Notation "x <- m ;; k" := (bind m (fun x => k))
  (at level 61, m at next level, right associativity) : script_scope.
Notation "m ;; k" := (bind m (fun _ => k))
  (at level 61, right associativity) : script_scope.
Local Open Scope script_scope.

(** [assert cond, msg] *)
Definition assert_ (cond : bool) (msg : string) : M unit :=
  if cond then ret tt else raise_ (Exn AssertionError msg None).

(** [for x in xs: body x] *)
Fixpoint foreach {A} (xs : list A) (body : A -> M unit) : M unit :=
  match xs with
  | [] => ret tt
  | x :: rest => body x ;; foreach rest body
  end.

(** A list comprehension with an awaited element expression. *)
Fixpoint collect {A B} (xs : list A) (f : A -> M B) : M (list B) :=
  match xs with
  | [] => ret []
  | x :: rest => y <- f x ;; ys <- collect rest f ;; ret (y :: ys)
  end.

(** Statements in sequence. *)
Fixpoint run_steps (steps : list (M unit)) : M unit :=
  match steps with
  | [] => ret tt
  | s :: rest => s ;; run_steps rest
  end.

(** [try: m / except async_api.Error: pass] *)
Definition try_except_pw (m : M unit) : M unit :=
  fun st =>
    match m st with
    | (inr a, st') => (inr a, st')
    | (inl e, st') => if is_playwright_error e then (inr tt, st') else (inl e, st')
    end.

(** [try: body / finally: fin].  The [finally] suite runs on every exit of
    [body]; an exception it raises replaces the pending one, which becomes
    its [__context__]. *)
Definition try_finally {A} (body : M A) (fin : M unit) : M A :=
  fun st =>
    match body st with
    | (inr a, st1) =>
        match fin st1 with
        | (inr _, st2) => (inr a, st2)
        | (inl e', st2) => (inl e', st2)
        end
    | (inl e, st1) =>
        match fin st1 with
        | (inr _, st2) => (inl e, st2)
        | (inl e', st2) => (inl (with_context (Some e) e'), st2)
        end
    end.

Section Scripts.

Variable w : World.

(** [await <call>]: ask the world, record the interaction. *)
Definition perform {A} (c : call A) : M A :=
  fun st =>
    let r := respond w (List.length (trace st)) c in
    (match r with inl e => inl (exn_of_pw e) | inr a => inr a end,
     log (EvCall c r) st).

Definition read {A} (q : query A) : M A :=
  fun st =>
    let r := observe w (List.length (trace st)) q in
    (inr r, log (EvQuery q r) st).

Definition emit (e : event) : M unit := fun st => (inr tt, log e st).

End Scripts.

(** ** Python values used by the assertions of TC004 *)

Module Py.

(** *** Strings (ASCII text) *)

(** [s.replace(c, '')] for a one-character [c]. *)
Fixpoint remove_char (c : ascii) (s : string) : string :=
  match s with
  | EmptyString => EmptyString
  | String a rest =>
      if Ascii.eqb a c then remove_char c rest else String a (remove_char c rest)
  end.

(** [needle in hay] on strings. *)
Fixpoint contains (needle hay : string) : bool :=
  if String.prefix needle hay then true
  else match hay with
       | EmptyString => false
       | String _ rest => contains needle rest
       end.

Definition code (c : ascii) : nat := nat_of_ascii c.

Definition is_digit (c : ascii) : bool :=
  (Nat.leb 48 (code c) && Nat.leb (code c) 57)%bool.

Definition digit_val (c : ascii) : Z := Z.of_nat (code c) - 48.

(** Whitespace that [float] strips: tab..carriage return, the separators
    0x1c..0x1f, and the space. *)
Definition is_space (c : ascii) : bool :=
  let n := code c in
  ((Nat.leb 9 n && Nat.leb n 13) || (Nat.leb 28 n && Nat.leb n 32))%bool.

Definition lower (c : ascii) : ascii :=
  let n := code c in
  if (Nat.leb 65 n && Nat.leb n 90)%bool then ascii_of_nat (n + 32) else c.

Fixpoint drop_spaces (s : list ascii) : list ascii :=
  match s with
  | c :: rest => if is_space c then drop_spaces rest else s
  | [] => []
  end.

Definition strip (s : list ascii) : list ascii :=
  rev (drop_spaces (rev (drop_spaces s))).

(** Underscores may only stand between two digits; they are removed. *)
Fixpoint drop_underscores (prev : option ascii) (s : list ascii)
  : option (list ascii) :=
  match s with
  | [] =>
      match prev with
      | Some "_"%char => None
      | _ => Some []
      end
  | c :: rest =>
      if Ascii.eqb c "_" then
        match prev with
        | Some p => if is_digit p then drop_underscores (Some c) rest else None
        | None => None
        end
      else
        let after_underscore :=
          match prev with Some "_"%char => true | _ => false end in
        if (after_underscore && negb (is_digit c))%bool then None
        else option_map (cons c) (drop_underscores (Some c) rest)
  end.

(** Longest prefix of digits, as a number and a count, and the rest. *)
Fixpoint take_digits (acc : Z) (n : Z) (s : list ascii) : Z * Z * list ascii :=
  match s with
  | c :: rest =>
      if is_digit c then take_digits (10 * acc + digit_val c) (n + 1) rest
      else (acc, n, s)
  | [] => (acc, n, [])
  end.

Definition take_sign (s : list ascii) : bool * list ascii :=
  match s with
  | "-"%char :: rest => (true, rest)
  | "+"%char :: rest => (false, rest)
  | _ => (false, s)
  end.

(** Optional exponent: consumed only when at least one digit follows. *)
Definition take_exponent (s : list ascii) : Z * list ascii :=
  match s with
  | c :: rest =>
      if Ascii.eqb (lower c) "e" then
        let '(neg, rest') := take_sign rest in
        let '(v, n, rest'') := take_digits 0 0 rest' in
        if n =? 0 then (0, s) else ((if neg then - v else v), rest'')
      else (0, s)
  | [] => (0, [])
  end.

Fixpoint match_ci (word : list ascii) (s : list ascii) : option (list ascii) :=
  match word, s with
  | [], _ => Some s
  | a :: word', c :: rest =>
      if Ascii.eqb a (lower c) then match_ci word' rest else None
  | _ :: _, [] => None
  end.

(** *** Floats: IEEE 754 binary64, exactly *)

(** [FFin neg m e] is [(-1)^neg * m * 2^e] with [0 <= m < 2^53] and
    [-1074 <= e <= 971]; [m < 2^52] only when [e = -1074]. *)
Inductive pyfloat :=
| FNan
| FInf (neg : bool)
| FFin (neg : bool) (m : Z) (e : Z).

(** Nearest integer to [n / d], ties to even ([0 <= n], [0 < d]). *)
Definition round_half_even (n d : Z) : Z :=
  let q := n / d in
  let r := n mod d in
  match 2 * r ?= d with
  | Lt => q
  | Gt => q + 1
  | Eq => if Z.even q then q else q + 1
  end.

(** [n / d] compared with [2 ^ k]. *)
Definition ge_pow2 (n d k : Z) : bool :=
  if 0 <=? k then d * 2 ^ k <=? n else d <=? n * 2 ^ (- k).

(** The double nearest to [n / d]. *)
Definition float_of_ratio (neg : bool) (n d : Z) : pyfloat :=
  if n =? 0 then FFin neg 0 (-1074)
  else
    let k := Z.log2 n - Z.log2 d in
    let lg := if ge_pow2 n d k then k else k - 1 in
    let e := Z.max (lg - 52) (-1074) in
    let m := if 0 <=? e then round_half_even n (d * 2 ^ e)
             else round_half_even (n * 2 ^ (- e)) d in
    let '(m, e) := if m =? 2 ^ 53 then (2 ^ 52, e + 1) else (m, e) in
    if 971 <? e then FInf neg else FFin neg m e.

Definition float_of_Z (z : Z) : pyfloat :=
  float_of_ratio (z <? 0) (Z.abs z) 1.

(** [mant * 10 ^ ex] as a double. *)
Definition float_of_decimal (neg : bool) (mant ex : Z) : pyfloat :=
  if 0 <=? ex then float_of_ratio neg (mant * 10 ^ ex) 1
  else float_of_ratio neg mant (10 ^ (- ex)).

(** What remains after the sign: a decimal numeral, or inf / nan. *)
Definition parse_unsigned (neg : bool) (s : list ascii) : option pyfloat :=
  let '(ip, ni, s1) := take_digits 0 0 s in
  let '(mant, nf, s2) :=
    match s1 with
    | "."%char :: s1' =>
        let '(m, n, r) := take_digits ip 0 s1' in (m, n, r)
    | _ => (ip, 0, s1)
    end in
  if ni + nf =? 0 then
    match match_ci (list_ascii_of_string "inf") s with
    | Some r =>
        match match_ci (list_ascii_of_string "inity") r with
        | Some [] => Some (FInf neg)
        | _ => match r with [] => Some (FInf neg) | _ => None end
        end
    | None =>
        match match_ci (list_ascii_of_string "nan") s with
        | Some [] => Some FNan
        | _ => None
        end
    end
  else
    let '(ex, s3) := take_exponent s2 in
    match s3 with
    | [] => Some (float_of_decimal neg mant (ex - nf))
    | _ => None
    end.

(** [float(s)] for a string [s]; [None] stands for ValueError. *)
Definition float_of_string (s : string) : option pyfloat :=
  match drop_underscores None (strip (list_ascii_of_string s)) with
  | None => None
  | Some body =>
      let '(neg, rest) := take_sign body in parse_unsigned neg rest
  end.

(** Order of floats; every comparison with a NaN is false. *)
Definition fcompare (x y : pyfloat) : option comparison :=
  let key (f : pyfloat) : option (Z * Z * Z) :=
    (* sign class, then magnitude as [m * 2 ^ (e + 1074)] *)
    match f with
    | FNan => None
    | FInf true => Some (-1, 1, 0)
    | FInf false => Some (1, 1, 0)
    | FFin neg m e =>
        let v := m * 2 ^ (e + 1074) in Some (0, 0, if neg then - v else v)
    end in
  match key x, key y with
  | Some (a, _, u), Some (b, _, v) =>
      Some (match a ?= b with Eq => u ?= v | c => c end)
  | _, _ => None
  end.

Definition fle (x y : pyfloat) : bool :=
  match fcompare x y with
  | Some Lt | Some Eq => true
  | _ => false
  end.

(** *** [repr] of a float: the shortest decimal that reads back as it *)

Definition digit_char (d : Z) : ascii := ascii_of_nat (48 + Z.to_nat d).

Fixpoint digits_fuel (fuel : nat) (z : Z) (acc : list ascii) : list ascii :=
  match fuel with
  | O => acc
  | S f =>
      let acc' := digit_char (z mod 10) :: acc in
      if z / 10 =? 0 then acc' else digits_fuel f (z / 10) acc'
  end.

(** Decimal digits of [z >= 0]. *)
Definition digits (z : Z) : list ascii :=
  digits_fuel (S (Z.to_nat (Z.log2 z))) z [].

Definition pow10 (k : Z) : Z := 10 ^ Z.max 0 k.
Definition pow2 (k : Z) : Z := 2 ^ Z.max 0 k.

(** [v / d] compared with [10 ^ p]. *)
Definition cmp_pow10 (v d p : Z) : comparison :=
  (v * pow10 (- p)) ?= (d * pow10 p).

(** The [p] with [10 ^ (p - 1) <= v / d < 10 ^ p], from an estimate. *)
Fixpoint adjust_decpt (fuel : nat) (v d p : Z) : Z :=
  match fuel with
  | O => p
  | S f =>
      match cmp_pow10 v d (p - 1) with
      | Lt => adjust_decpt f v d (p - 1)
      | _ =>
          match cmp_pow10 v d p with
          | Lt => p
          | _ => adjust_decpt f v d (p + 1)
          end
      end
  end.

(** Search for the least number [k] of significant digits such that a
    [k]-digit decimal lies in the rounding interval of [m * 2 ^ e]; of two
    such decimals the nearer one is taken.  In units of [2 ^ (e - 2)] the
    value is [4 m] and the interval is [[lo, 4 m + 2]]. *)
Fixpoint shortest_fuel (fuel : nat) (k : Z) (m e p : Z) : Z * Z :=
  let s := p - k in
  let a := pow2 (e - 2) * pow10 (- s) in
  let b := pow2 (2 - e) * pow10 s in
  let v := 4 * m in
  let lo := if ((m =? 2 ^ 52) && (-1074 <? e))%bool then v - 1 else v - 2 in
  let hi := v + 2 in
  let inside (c : Z) : bool :=
    if Z.even m then ((lo * a <=? c * b) && (c * b <=? hi * a))%bool
    else ((lo * a <? c * b) && (c * b <? hi * a))%bool in
  let c1 := (v * a) / b in
  let c2 := c1 + 1 in
  let pick :=
    match inside c1, inside c2 with
    | true, true =>
        if (v * a - c1 * b) <=? (c2 * b - v * a) then Some c1 else Some c2
    | true, false => Some c1
    | false, true => Some c2
    | false, false => None
    end in
  match pick, fuel with
  | Some c, _ => (c, s)
  | None, O => (c1, s)
  | None, S f => shortest_fuel f (k + 1) m e p
  end.

Fixpoint strip_zeros_rev (ds : list ascii) (s : Z) : list ascii * Z :=
  match ds with
  | "0"%char :: rest =>
      match rest with
      | [] => (ds, s)
      | _ => strip_zeros_rev rest (s + 1)
      end
  | _ => (ds, s)
  end.

(** Digits and decimal point position of a positive finite double:
    the value reads [0.d1 d2 ... dn * 10 ^ decpt]. *)
Definition shortest_digits (m e : Z) : list ascii * Z :=
  let est := ((Z.log2 m + e) * 30103) / 100000 + 1 in
  let p := adjust_decpt 8 (m * pow2 e) (pow2 (- e)) est in
  let '(c, s) := shortest_fuel 17 1 m e p in
  let '(rds, s') := strip_zeros_rev (rev (digits c)) s in
  let ds := rev rds in
  (ds, s' + Z.of_nat (List.length ds)).

Definition zeros (n : Z) : list ascii := repeat "0"%char (Z.to_nat n).

(** [repr(x)], which is also what an f-string field [{x}] shows. *)
Definition repr_float (x : pyfloat) : string :=
  match x with
  | FNan => "nan"
  | FInf neg => if neg then "-inf" else "inf"
  | FFin neg m e =>
      let sign := if neg then ["-"%char] else [] in
      let body :=
        if m =? 0 then list_ascii_of_string "0.0"
        else
          let '(ds, decpt) := shortest_digits m e in
          let n := Z.of_nat (List.length ds) in
          if ((decpt <=? -4) || (16 <? decpt))%bool then
            let ex := decpt - 1 in
            let exd := digits (Z.abs ex) in
            let exd := if Z.abs ex <? 10 then "0"%char :: exd else exd in
            let mant := match ds with
                        | d :: (_ :: _) as rest => d :: "."%char :: rest
                        | _ => ds
                        end in
            (mant ++ ["e"%char; if ex <? 0 then "-"%char else "+"%char] ++ exd)%list
          else if decpt <=? 0 then
            (list_ascii_of_string "0." ++ zeros (- decpt) ++ ds)%list
          else if n <=? decpt then
            (ds ++ zeros (decpt - n) ++ list_ascii_of_string ".0")%list
          else
            (firstn (Z.to_nat decpt) ds ++ ["."%char]
               ++ skipn (Z.to_nat decpt) ds)%list
      in
      string_of_list_ascii (sign ++ body)%list
  end.

(** *** [repr] of an ASCII string, as shown in ValueError messages *)

Definition hex_digit (n : nat) : ascii :=
  if Nat.ltb n 10 then ascii_of_nat (48 + n) else ascii_of_nat (87 + n).

Definition backslash : ascii := ascii_of_nat 92.
Definition dquote : ascii := ascii_of_nat 34.

Definition escape_char (quote : ascii) (c : ascii) : list ascii :=
  let n := code c in
  if Ascii.eqb c quote then [backslash; c]
  else if Ascii.eqb c backslash then [backslash; backslash]
  else if Nat.eqb n 9 then [backslash; "t"%char]
  else if Nat.eqb n 10 then [backslash; "n"%char]
  else if Nat.eqb n 13 then [backslash; "r"%char]
  else if (Nat.ltb n 32 || Nat.eqb n 127)%bool then
    [backslash; "x"%char; hex_digit (Nat.div n 16); hex_digit (Nat.modulo n 16)]
  else [c].

Definition repr_str (s : string) : string :=
  let cs := list_ascii_of_string s in
  let has q := existsb (Ascii.eqb q) cs in
  let quote : ascii :=
    if (has "'"%char && negb (has dquote))%bool then dquote else "'"%char in
  string_of_list_ascii
    ([quote] ++ flat_map (escape_char quote) cs ++ [quote])%list.

End Py.

(** ** The statements of the scripts *)

Section Statements.

Variable w : World.

Import Py.

(** *** Local variables *)

Definition none_has_no (attr : string) : exn :=
  Exn AttributeError ("'NoneType' object has no attribute '" ++ attr ++ "'") None.

Definition unbound_local (name : string) : exn :=
  Exn UnboundLocalError
    ("cannot access local variable '" ++ name
       ++ "' where it is not associated with a value") None.

(** Reading [pw], [browser] or [context] to use attribute [attr]. *)
Definition load {A} (var : State -> option A) (attr : string) : M A :=
  fun st =>
    match var st with
    | Some h => (inr h, st)
    | None => (inl (none_has_no attr), st)
    end.

Definition load_page : M page :=
  fun st =>
    match page_ st with
    | Some p => (inr p, st)
    | None => (inl (unbound_local "page"), st)
    end.

Definition store_pw (h : engine) : M unit :=
  fun st => (inr tt, {| trace := trace st; pw := Some h; browser_ := browser_ st;
                        context_ := context_ st; page_ := page_ st |}).

Definition store_browser (h : browser) : M unit :=
  fun st => (inr tt, {| trace := trace st; pw := pw st; browser_ := Some h;
                        context_ := context_ st; page_ := page_ st |}).

Definition store_context (h : context) : M unit :=
  fun st => (inr tt, {| trace := trace st; pw := pw st; browser_ := browser_ st;
                        context_ := Some h; page_ := page_ st |}).

Definition store_page (h : page) : M unit :=
  fun st => (inr tt, {| trace := trace st; pw := pw st; browser_ := browser_ st;
                        context_ := context_ st; page_ := Some h |}).

(** *** Lines 9-45, the same in the four scripts *)

Definition launch_args : list string :=
  ["--window-size=1280,720"; "--disable-dev-shm-usage"; "--ipc=host";
   "--single-process"].

(** line 11 *)
Definition start_playwright : M unit :=
  h <- perform w PlaywrightStart ;; store_pw h.

(** lines 14-22 *)
Definition launch_browser : M unit :=
  p <- load pw "chromium" ;;
  b <- perform w (ChromiumLaunch p true launch_args) ;;
  store_browser b.

(** line 25 *)
Definition new_context : M unit :=
  b <- load browser_ "new_context" ;;
  c <- perform w (NewContext b) ;;
  store_context c.

(** line 26 *)
Definition set_default_timeout : M unit :=
  c <- load context_ "set_default_timeout" ;;
  emit (EvSetDefaultTimeout c 5000).

(** line 29 *)
Definition new_page : M unit :=
  c <- load context_ "new_page" ;;
  p <- perform w (NewPage c) ;;
  store_page p.

(** line 32 *)
Definition goto_home : M unit :=
  p <- load_page ;;
  perform w (Goto p "http://localhost:5175" (Some "commit") 10000).

(** lines 35-38 *)
Definition wait_page_loaded : M unit :=
  try_except_pw
    (p <- load_page ;;
     perform w (PageWaitForLoadState p "domcontentloaded" 3000)).

(** lines 41-45 *)
Definition wait_frame_loaded (f : frame) : M unit :=
  try_except_pw (perform w (FrameWaitForLoadState f "domcontentloaded" 3000)).

Definition wait_frames_loaded : M unit :=
  p <- load_page ;;
  frames <- read w (PageFrames p) ;;
  foreach frames wait_frame_loaded.

Definition acquire_steps : list (M unit) :=
  [start_playwright; launch_browser; new_context; set_default_timeout; new_page].

Definition navigate_steps : list (M unit) :=
  [goto_home; wait_page_loaded; wait_frames_loaded].

Definition prologue : list (M unit) := acquire_steps ++ navigate_steps.

(** *** The [finally] suite, the same in the four scripts *)

Definition when_set {A} (var : State -> option A) (f : A -> M unit) : M unit :=
  fun st =>
    match var st with
    | Some h => f h st
    | None => (inr tt, st)
    end.

Definition teardown : M unit :=
  when_set context_ (fun c => perform w (ContextClose c)) ;;
  when_set browser_ (fun b => perform w (BrowserClose b)) ;;
  when_set pw (fun p => perform w (PlaywrightStop p)).

(** *** Interaction statements *)

(** The name [window] is bound nowhere: the module imports [asyncio] and
    [async_api] and defines [run_test]; it is not a builtin. *)
Definition window_innerHeight : M Z :=
  raise_ (Exn NameError "name 'window' is not defined" None).

(** [await page.mouse.wheel(0, window.innerHeight)] *)
Definition scroll_down : M unit :=
  p <- load_page ;;
  h <- window_innerHeight ;;
  perform w (MouseWheel p 0 h).

(** [await page.mouse.wheel(0, -window.innerHeight)] *)
Definition scroll_up : M unit :=
  p <- load_page ;;
  h <- window_innerHeight ;;
  perform w (MouseWheel p 0 (- h)).

(** [await page.goto(url, timeout=10000)] *)
Definition goto_url (url : string) : M unit :=
  p <- load_page ;;
  perform w (Goto p url None 10000).

(** [frame = context.pages[-1]] *)
Definition last_page : M page :=
  c <- load context_ "pages" ;;
  pages <- read w (ContextPages c) ;;
  match rev pages with
  | p :: _ => ret p
  | [] => raise_ (Exn IndexError "list index out of range" None)
  end.

(** [frame = context.pages[-1]; elem = frame.locator(sel).nth(0);
     await page.wait_for_timeout(3000); await elem.click(timeout=5000)] *)
Definition click (selector : string) : M unit :=
  f <- last_page ;;
  p <- load_page ;;
  perform w (WaitForTimeout p 3000) ;;
  perform w (LocatorClick f selector 0 5000).

(** The same with [await elem.fill(text)]. *)
Definition fill (selector text : string) : M unit :=
  f <- last_page ;;
  p <- load_page ;;
  perform w (WaitForTimeout p 3000) ;;
  perform w (LocatorFill f selector 0 text).

Definition generic_failure : string :=
  "Test plan execution failed: generic failure assertion.".

(** [assert False, 'Test plan execution failed: generic failure assertion.'] *)
Definition assert_false : M unit := assert_ false generic_failure.

(** [await asyncio.sleep(5)] *)
Definition sleep5 : M unit := emit (EvSleep 5).

(** *** Assertions of TC004 *)

Definition is_some {A} (o : option A) : bool :=
  match o with Some _ => true | None => false end.

(** [await (await villa.query_selector(sel)).inner_text()] *)
Definition child_inner_text (villa : elem) (selector : string) : M string :=
  child <- perform w (ElemQuerySelector villa selector) ;;
  match child with
  | Some c => perform w (InnerText c)
  | None => raise_ (none_has_no "inner_text")
  end.

(** [float(s)] *)
Definition to_float (s : string) : M pyfloat :=
  match float_of_string s with
  | Some v => ret v
  | None =>
      raise_ (Exn ValueError
                ("could not convert string to float: " ++ repr_str s) None)
  end.

(** [float(price_text.replace('$','').replace(',',''))] *)
Definition price_of_text (price_text : string) : M pyfloat :=
  to_float (remove_char "," (remove_char "$" price_text)).

(** [100 <= price_value <= 500]; both bounds are doubles exactly. *)
Definition in_price_range (price_value : pyfloat) : bool :=
  (fle (float_of_Z 100) price_value && fle price_value (float_of_Z 500))%bool.

(** lines 55-63, the body of the loop *)
Definition check_card (villa : elem) : M unit :=
  multimedia <- perform w (ElemQuerySelector villa ".multimedia") ;;
  assert_ (is_some multimedia) "Villa multimedia not found" ;;
  title <- perform w (ElemQuerySelector villa ".villa-title") ;;
  price <- perform w (ElemQuerySelector villa ".villa-price") ;;
  location <- perform w (ElemQuerySelector villa ".villa-location") ;;
  assert_ (is_some title && is_some price && is_some location)%bool
    "Key villa information missing".

(** lines 53-63 *)
Definition listing_assertions : M unit :=
  p <- load_page ;;
  villas <- perform w (PageQuerySelectorAll p ".villa-card") ;;
  assert_ (Nat.ltb 0 (List.length villas)) "No villas found on the listing page" ;;
  foreach villas check_card.

(** lines 67-69, the body of the loop *)
Definition check_location (villa : elem) : M unit :=
  loc_text <- child_inner_text villa ".villa-location" ;;
  assert_ (contains "Expected Location" loc_text)
    ("Villa location " ++ loc_text ++ " does not match filter").

(** lines 65-69 *)
Definition location_assertions : M unit :=
  p <- load_page ;;
  filtered_villas <- perform w (PageQuerySelectorAll p ".villa-card") ;;
  assert_ (Nat.ltb 0 (List.length filtered_villas))
    "No villas found after applying location filter" ;;
  foreach filtered_villas check_location.

(** lines 73-76, the body of the loop *)
Definition check_price (villa : elem) : M unit :=
  price_text <- child_inner_text villa ".villa-price" ;;
  price_value <- price_of_text price_text ;;
  assert_ (in_price_range price_value)
    ("Villa price " ++ repr_float price_value ++ " out of range").

(** lines 71-76 *)
Definition price_assertions : M unit :=
  p <- load_page ;;
  filtered_villas <- perform w (PageQuerySelectorAll p ".villa-card") ;;
  assert_ (Nat.ltb 0 (List.length filtered_villas))
    "No villas found after applying price filter" ;;
  foreach filtered_villas check_price.

Definition is_pool (v : jsval) : bool :=
  match v with
  | JString s => String.eqb "Pool" s
  | _ => false
  end.

(** lines 80-83, the body of the loop *)
Definition check_amenities (villa : elem) : M unit :=
  amenities <- perform w (ElemQuerySelectorAll villa ".amenity") ;;
  amenity_texts <-
    collect amenities
      (fun amenity =>
         h <- perform w (GetProperty amenity "textContent") ;;
         perform w (JsonValue h)) ;;
  assert_ (existsb is_pool amenity_texts) "Villa missing required amenity: Pool".

(** lines 78-83 *)
Definition amenities_assertions : M unit :=
  p <- load_page ;;
  filtered_villas <- perform w (PageQuerySelectorAll p ".villa-card") ;;
  assert_ (Nat.ltb 0 (List.length filtered_villas))
    "No villas found after applying amenities filter" ;;
  foreach filtered_villas check_amenities.

(** *** The four scenarios *)

Inductive scenario := TC004 | TC005 | TC007 | TC012.

(** TC004, lines 49-84 *)
Definition steps_TC004 : list (M unit) :=
  [ scroll_down;
    listing_assertions;
    location_assertions;
    price_assertions;
    amenities_assertions;
    sleep5 ].

(** TC005, lines 49-175 *)
Definition steps_TC005 : list (M unit) :=
  [ scroll_down;
    scroll_up;
    goto_url "http://localhost:5175/login";
    click "xpath=html/body/div/div/div/div/a";
    click "xpath=html/body/div/div/div/div/div[2]/div/a[2]";
    fill "xpath=html/body/div/div/div/div/div/form/div/input" "host@example.com";
    fill "xpath=html/body/div/div/div/div/div/form/div[2]/input" "HostPassword123";
    click "xpath=html/body/div/div/div/div/div/form/button";
    click "xpath=html/body/div/div/div/div/div/div/a";
    fill "xpath=html/body/div/div/div/div/form/div/input" "host@example.com";
    click "xpath=html/body/div/div/div/div/form/button";
    click "xpath=html/body/div/div/div/div/div/div[2]/a";
    fill "xpath=html/body/div/div/div/div/div/form/div/input" "host@example.com";
    fill "xpath=html/body/div/div/div/div/div/form/div[2]/input" "NewHostPassword123";
    click "xpath=html/body/div/div/div/div/div/form/button";
    click "xpath=html/body/div/div/div/div/div/div/div/a";
    fill "xpath=html/body/div/div/div/div/form/div[2]/input" "Test Host";
    fill "xpath=html/body/div/div/div/div/form/div[3]/input" "testhost@example.com";
    fill "xpath=html/body/div/div/div/div/form/div[4]/div/input" "TestHostPass123";
    click "xpath=html/body/div/div/div/div/form/div[5]/label/input";
    click "xpath=html/body/div/div/div/div/form/button";
    fill "xpath=html/body/div/div/div[2]/div/div/form/div/input" "testhost@example.com";
    fill "xpath=html/body/div/div/div[2]/div/div/form/div[2]/input" "TestHostPass123";
    click "xpath=html/body/div/div/div[2]/div/div/form/button";
    assert_false;
    sleep5 ].

(** TC007, lines 51-151 *)
Definition steps_TC007 : list (M unit) :=
  [ click "xpath=html/body/div/div/div/div/div[2]/div/a[2]";
    fill "xpath=html/body/div/div/div/div/div/form/div/input" "guest@example.com";
    fill "xpath=html/body/div/div/div/div/div/form/div[2]/input" "guestpassword";
    click "xpath=html/body/div/div/div/div/div/form/button";
    click "xpath=html/body/div/div/nav/div/div/a";
    click "xpath=html/body/div/div/div/div[2]/section/div[2]/div/a";
    click "xpath=html/body/div/div/nav/div/div/a";
    click "xpath=html/body/div/div/div/div[2]/section/div[2]/div/a[2]";
    click "xpath=html/body/div/div/nav/div/div/a";
    click "xpath=html/body/div/div/div/div[2]/section/div[2]/div/a[3]";
    click "xpath=html/body/div/div/nav/div/div/a";
    fill "xpath=html/body/div/div/div/div/div[2]/form/input" "Malibu";
    fill "xpath=html/body/div/div/div/div/div[2]/form/input[2]" "2025-08-01";
    fill "xpath=html/body/div/div/div/div/div[2]/form/input[3]" "2025-08-05";
    fill "xpath=html/body/div/div/div/div/div[2]/form/input[4]" "2";
    click "xpath=html/body/div/div/div/div/div[2]/form/button";
    click "xpath=html/body/div/div/div/div/div[3]/div/div[2]/div/div/div/a";
    click "xpath=html/body/div/div/nav/div/div/a";
    assert_false;
    sleep5 ].

(** TC012, lines 49-121 *)
Definition steps_TC012 : list (M unit) :=
  [ scroll_down;
    goto_url "http://localhost:5175/login";
    goto_url "http://localhost:5175/home";
    click "xpath=html/body/div/div/div/div/a";
    click "xpath=html/body/div/div/div/div/div[2]/div/a[2]";
    fill "xpath=html/body/div/div/div/div/div/form/div/input" "guest@example.com";
    fill "xpath=html/body/div/div/div/div/div/form/div[2]/input" "guestpassword";
    click "xpath=html/body/div/div/div/div/div/form/button";
    click "xpath=html/body/div/div/div/div/div/div/div/a";
    fill "xpath=html/body/div/div/div/div/form/div[2]/input" "Test Guest";
    fill "xpath=html/body/div/div/div/div/form/div[3]/input" "testguest@example.com";
    fill "xpath=html/body/div/div/div/div/form/div[4]/div/input" "guestpass123";
    click "xpath=html/body/div/div/div/div/form/div[5]/label/input";
    click "xpath=html/body/div/div/div/div/form/button";
    assert_false;
    sleep5 ].

Definition scenario_steps (sc : scenario) : list (M unit) :=
  match sc with
  | TC004 => steps_TC004
  | TC005 => steps_TC005
  | TC007 => steps_TC007
  | TC012 => steps_TC012
  end.

(** The [try] suite: lines 9-45 and then the scenario's own statements. *)
Definition body_steps (sc : scenario) : list (M unit) :=
  prologue ++ scenario_steps sc.

Definition body (sc : scenario) : M unit := run_steps (body_steps sc).

(** [run_test()] *)
Definition run_test (sc : scenario) : M unit :=
  try_finally (body sc) teardown.

End Statements.

(** [asyncio.run(run_test())] from the initial locals: what the coroutine
    returned or raised, and the final state. *)
Definition run (w : World) (sc : scenario) : (exn + unit) * State :=
  run_test w sc init.

Definition outcome (w : World) (sc : scenario) : exn + unit := fst (run w sc).
Definition final_trace (w : World) (sc : scenario) : list event :=
  trace (snd (run w sc)).

(** The script passes when [run_test] returns; an exception that leaves
    it ends the process with a traceback. *)
Definition passed (o : exn + unit) : bool :=
  match o with inr _ => true | inl _ => false end.

(** ** Some worlds *)

(** Every call succeeds: fresh handles are numbered, pages and element
    sets are empty. *)
Definition default_answer {A} (c : call A) : A :=
  match c in call T return T with
  | PlaywrightStart => 1%nat
  | ChromiumLaunch _ _ _ => 2%nat
  | NewContext _ => 3%nat
  | NewPage _ => 4%nat
  | Goto _ _ _ _ => tt
  | PageWaitForLoadState _ _ _ => tt
  | FrameWaitForLoadState _ _ _ => tt
  | MouseWheel _ _ _ => tt
  | WaitForTimeout _ _ => tt
  | LocatorClick _ _ _ _ => tt
  | LocatorFill _ _ _ _ => tt
  | PageQuerySelectorAll _ _ => []
  | ElemQuerySelector _ _ => None
  | ElemQuerySelectorAll _ _ => []
  | InnerText _ => ""
  | GetProperty _ _ => []
  | JsonValue _ => JNull
  | ContextClose _ => tt
  | BrowserClose _ => tt
  | PlaywrightStop _ => tt
  end.

(** One page with its main frame and one nested frame. *)
Definition default_view {A} (q : query A) : A :=
  match q in query T return T with
  | PageFrames p => [0%nat; 1%nat]
  | ContextPages c => [4%nat]
  end.

Definition happy_world : World :=
  {| respond := fun A _ c => inr (default_answer c);
     observe := fun A _ q => default_view q |}.

(** ** Observations on traces *)

(** The three resources of a session, in the order of their acquisition. *)
Inductive resource :=
| REngine (h : engine)
| RBrowser (h : browser)
| RContext (h : context).

(** The resource an interaction hands to the script, if any. *)
Definition acquired_by (e : event) : option resource :=
  match e with
  | EvCall c r =>
      match c in call T return pw_error + T -> option resource with
      | PlaywrightStart =>
          fun r => match r with inr h => Some (REngine h) | inl _ => None end
      | ChromiumLaunch _ _ _ =>
          fun r => match r with inr h => Some (RBrowser h) | inl _ => None end
      | NewContext _ =>
          fun r => match r with inr h => Some (RContext h) | inl _ => None end
      | _ => fun _ => None
      end r
  | _ => None
  end.

(** The resource an interaction attempts to close, if any. *)
Definition released_by (e : event) : option resource :=
  match e with
  | EvCall c _ =>
      match c with
      | ContextClose h => Some (RContext h)
      | BrowserClose h => Some (RBrowser h)
      | PlaywrightStop h => Some (REngine h)
      | _ => None
      end
  | _ => None
  end.

Definition opt_list {A} (o : option A) : list A :=
  match o with Some a => [a] | None => [] end.

Definition acquisitions (tr : list event) : list resource :=
  flat_map (fun e => opt_list (acquired_by e)) tr.

Definition releases (tr : list event) : list resource :=
  flat_map (fun e => opt_list (released_by e)) tr.

(** The engine answered the interaction with an error. *)
Definition failed (e : event) : bool :=
  match e with
  | EvCall _ (inl _) => true
  | _ => false
  end.

Definition is_release (e : event) : bool := is_some (released_by e).

(** Events of lines 11-29. *)
Definition is_setup (e : event) : bool :=
  match e with
  | EvCall c _ =>
      match c with
      | PlaywrightStart | ChromiumLaunch _ _ _ | NewContext _ | NewPage _ => true
      | _ => false
      end
  | EvSetDefaultTimeout _ _ => true
  | _ => false
  end.

(** Events of the click and fill statements. *)
Definition is_interaction (e : event) : bool :=
  match e with
  | EvCall c _ =>
      match c with
      | WaitForTimeout _ _ | LocatorClick _ _ _ _ | LocatorFill _ _ _ _ => true
      | _ => false
      end
  | EvQuery q _ =>
      match q with
      | ContextPages _ => true
      | _ => false
      end
  | _ => false
  end.


(** The best-effort load-state waits. *)
Definition is_load_state_wait {A} (c : call A) : bool :=
  match c with
  | PageWaitForLoadState _ _ _ | FrameWaitForLoadState _ _ _ => true
  | _ => false
  end.




(** Frame discovery on page [p]: the soft wait on the page, the
    enumeration of its frames and one soft wait per frame, in order. *)
Definition frame_wait_of (e : event) (f : frame) : Prop :=
  exists r, e = EvCall (FrameWaitForLoadState f "domcontentloaded" 3000) r.

Definition discovery (p : page) (l : list event) : Prop :=
  exists r frames waits,
    l = EvCall (PageWaitForLoadState p "domcontentloaded" 3000) r
          :: EvQuery (PageFrames p) frames :: waits
    /\ Forall2 frame_wait_of waits frames.

(** The locals that hold a resource, in acquisition order. *)
Definition held (st : State) : list resource :=
  (opt_list (option_map REngine (pw st))
     ++ opt_list (option_map RBrowser (browser_ st))
     ++ opt_list (option_map RContext (context_ st)))%list.

Definition same_locals (st st' : State) : Prop :=
  pw st' = pw st /\ browser_ st' = browser_ st
  /\ context_ st' = context_ st /\ page_ st' = page_ st.

(** A fragment that only appends events satisfying [P] and leaves the
    locals alone. *)
Definition quiet (P : event -> bool) {A} (m : M A) : Prop :=
  forall st, exists l,
    trace (snd (m st)) = (trace st ++ l)%list
    /\ forallb P l = true
    /\ same_locals st (snd (m st)).

(** The session resources can only have been acquired in order. *)
Definition session_shape (l : list resource) : bool :=
  match l with
  | [] | [REngine _] | [REngine _; RBrowser _]
  | [REngine _; RBrowser _; RContext _] => true
  | _ => false
  end.

(** [st] after the interactions [l]. *)
Definition extend (st : State) (l : list event) : State :=
  {| trace := trace st ++ l; pw := pw st; browser_ := browser_ st;
     context_ := context_ st; page_ := page_ st |}.

Definition home : string := "http://localhost:5175".

(** What lines 32-45 leave in the trace: nothing was tried, the first
    navigation failed, or it succeeded and frame discovery followed. *)
Definition nav_shape (nav : list event) : Prop :=
  nav = []
  \/ (exists p err, nav = [EvCall (Goto p home (Some "commit") 10000) (inl err)])
  \/ (exists p l,
        nav = EvCall (Goto p home (Some "commit") 10000) (inr tt) :: l
        /\ discovery p l).

Definition name_error_window : exn :=
  Exn NameError "name 'window' is not defined" None.

Definition generic_assertion_error : exn :=
  Exn AssertionError generic_failure None.

(** A statement that raises whenever it is reached, touching nothing. *)
Definition always_raises (s : M unit) : Prop :=
  forall st, exists e, s st = (inl e, st).

(** The statements of a scenario that come before the first statement
    that raises whenever it is reached: the scroll of TC004, TC005 and
    TC012, and the final [assert False] of TC007. *)
Definition before_stop (w : World) (sc : scenario) : list (M unit) :=
  match sc with
  | TC007 => firstn 18 (steps_TC007 w)
  | _ => []
  end.

Definition stop (w : World) (sc : scenario) : M unit :=
  match sc with
  | TC007 => assert_false
  | _ => scroll_down w
  end.

Definition after_stop (w : World) (sc : scenario) : list (M unit) :=
  match sc with
  | TC007 => [sleep5]
  | _ => tl (scenario_steps w sc)
  end.

(** No interaction of [l] was answered with an error. *)
Definition all_succeeded (l : list event) : bool :=
  forallb (fun e => negb (failed e)) l.

(** Events of lines 32-45. *)
Definition is_nav_event (e : event) : bool :=
  match e with
  | EvCall c _ =>
      match c with
      | Goto _ _ _ _ | PageWaitForLoadState _ _ _
      | FrameWaitForLoadState _ _ _ => true
      | _ => false
      end
  | EvQuery q _ =>
      match q with
      | PageFrames _ => true
      | _ => false
      end
  | _ => false
  end.

(** Events of the [try] suite, as opposed to those of [finally]. *)
Definition is_body_event (e : event) : bool :=
  (is_setup e || is_nav_event e || is_interaction e)%bool.

(** A world like [happy_world] in which the calls selected by [bad] are
    answered with an error. *)
Definition world_failing (bad : forall A, call A -> option pw_error) : World :=
  {| respond := fun A _ c =>
       match bad A c with
       | Some err => inl err
       | None => inr (default_answer c)
       end;
     observe := fun A _ q => default_view q |}.

Definition driver_gone : pw_error :=
  PwError "Connection closed while reading from the driver".

(** Everything works until the context is closed. *)
Definition context_close_fails : World :=
  world_failing
    (fun A c => match c with ContextClose _ => Some driver_gone | _ => None end).

(** The reading of the teardown contract under which a failure of a
    closing call is logged and suppressed: the run still reports the
    failure [E] of the [try] suite, and every acquired resource is
    closed. *)
Definition teardown_errors_suppressed (w : World) (sc : scenario) : Prop :=
  forall E st1,
    body w sc init = (inl E, st1) ->
    outcome w sc = inl E
    /\ releases (final_trace w sc) = rev (acquisitions (trace st1)).

(** The reading of the hard-step contract under which the failure of the
    statement at position [n] ends the [try] suite, is non-empty, and is
    what the run reports whatever happens afterwards. *)
Definition first_failure_recorded (w : World) (sc : scenario) : Prop :=
  forall n s st e st',
    nth_error (body_steps w sc) n = Some s ->
    run_steps (firstn n (body_steps w sc)) init = (inr tt, st) ->
    s st = (inl e, st') ->
    body w sc init = (inl e, st')
    /\ outcome w sc = inl e
    /\ exn_msg e <> "".

(** The first navigation times out, and afterwards the browser cannot be
    closed. *)
Definition goto_and_browser_close_fail : World :=
  world_failing
    (fun A c =>
       match c with
       | Goto _ _ _ _ => Some (PwTimeoutError "Page.goto: Timeout 10000ms exceeded.")
       | BrowserClose _ => Some driver_gone
       | _ => None
       end).

(** The page goes away during the pause that precedes each click. *)
Definition page_closes_while_waiting : World :=
  world_failing
    (fun A c =>
       match c with
       | WaitForTimeout _ _ =>
           Some (PwError
                   "Page.wait_for_timeout: Target page, context or browser has been closed")
       | _ => None
       end).

(** Failures raised by the script itself carry a fixed text; those of the
    engine carry whatever the engine says. *)
Definition reason_ok (e : exn) : Prop :=
  is_playwright_error e = true \/ exn_msg e <> "".

(** Every failure of fragment [m] has an acceptable reason. *)
Definition raises_ok {A} (m : M A) : Prop :=
  forall st e st', m st = (inl e, st') -> reason_ok e.

(** The answer [r] to call [c], with a load-state wait made to succeed. *)
Definition soften {A} (c : call A) : pw_error + A -> pw_error + A :=
  match c in call T return pw_error + T -> pw_error + T with
  | PageWaitForLoadState _ _ _ => fun _ => inr tt
  | FrameWaitForLoadState _ _ _ => fun _ => inr tt
  | _ => fun r => r
  end.

(** The world that answers like [w], except that every load-state wait
    succeeds. *)
Definition waits_succeed (w : World) : World :=
  {| respond := fun A k c => soften c (respond w k c);
     observe := fun A k q => observe w k q |}.

Definition wait_succeeded (e : event) : event :=
  match e with
  | EvCall c r => EvCall c (soften c r)
  | _ => e
  end.

(** States of two runs that differ only in how the load-state waits were
    answered. *)
Definition same_but_waits (st st' : State) : Prop :=
  trace st' = map wait_succeeded (trace st)
  /\ pw st' = pw st /\ browser_ st' = browser_ st
  /\ context_ st' = context_ st /\ page_ st' = page_ st.

(** Fragment [m'] does from such a state what [m] does. *)
Definition sim {A} (m m' : M A) : Prop :=
  forall st st',
    same_but_waits st st' ->
    fst (m' st') = fst (m st) /\ same_but_waits (snd (m st)) (snd (m' st')).

(** Every load-state wait times out; everything else works. *)
Definition waits_time_out : World :=
  world_failing
    (fun A c =>
       match c with
       | PageWaitForLoadState _ _ _ | FrameWaitForLoadState _ _ _ =>
           Some (PwTimeoutError "Timeout 3000ms exceeded.")
       | _ => None
       end).

(** The statements of the [try] suite before its last two, which in
    TC005, TC007 and TC012 are the generic [assert False] and the sleep. *)
Definition steps_before_assert (w : World) (sc : scenario) : list (M unit) :=
  firstn (List.length (body_steps w sc) - 2) (body_steps w sc).

(** ** Fixture pages *)

(** A villa card as the listing page renders it: which of the elements
    the assertions look for are present, and their texts. *)
Record card := {
  c_multimedia : bool;
  c_title : bool;
  c_price : option string;
  c_location : option string;
  c_amenities : list jsval
}.

Definition complete (c : card) : bool :=
  (c_multimedia c && c_title c && is_some (c_price c)
   && is_some (c_location c))%bool.

(** Handles: card [i] is [[i]], its children are [[i; 0]] .. [[i; 3]],
    its amenity [j] is [[i; 4; j]]. *)
Definition child_of (cards : list card) (e : elem) (selector : string)
  : option elem :=
  match e with
  | [i] =>
      match nth_error cards i with
      | Some c =>
          if String.eqb selector ".multimedia" then
            if c_multimedia c then Some [i; 0%nat] else None
          else if String.eqb selector ".villa-title" then
            if c_title c then Some [i; 1%nat] else None
          else if String.eqb selector ".villa-price" then
            option_map (fun _ => [i; 2%nat]) (c_price c)
          else if String.eqb selector ".villa-location" then
            option_map (fun _ => [i; 3%nat]) (c_location c)
          else None
      | None => None
      end
  | _ => None
  end.

Definition text_of (cards : list card) (e : elem) : string :=
  match e with
  | [i; 2%nat] =>
      match nth_error cards i with
      | Some {| c_price := Some t |} => t
      | _ => ""
      end
  | [i; 3%nat] =>
      match nth_error cards i with
      | Some {| c_location := Some t |} => t
      | _ => ""
      end
  | _ => ""
  end.

Definition fixture_answer (cards : list card) {A} (c : call A) : A :=
  match c in call T return T with
  | PageQuerySelectorAll _ selector =>
      if String.eqb selector ".villa-card"
      then map (fun i => [i]) (seq 0 (List.length cards))
      else []
  | ElemQuerySelector e selector => child_of cards e selector
  | ElemQuerySelectorAll e selector =>
      match e with
      | [i] =>
          if String.eqb selector ".amenity" then
            match nth_error cards i with
            | Some c =>
                map (fun j => [i; 4%nat; j]) (seq 0 (List.length (c_amenities c)))
            | None => []
            end
          else []
      | _ => []
      end
  | InnerText e => text_of cards e
  | GetProperty e _ => e
  | JsonValue h =>
      match h with
      | [i; 4%nat; j] =>
          match nth_error cards i with
          | Some c => nth j (c_amenities c) JNull
          | None => JNull
          end
      | _ => JNull
      end
  | c => default_answer c
  end.

(** The world in which the application shows the listing [cards] and
    every call succeeds. *)
Definition fixture_world (cards : list card) : World :=
  {| respond := fun A _ c => inr (fixture_answer cards c);
     observe := fun A _ q => default_view q |}.

(** The state that lines 9-45 leave. *)
Definition after_prologue (w : World) : State :=
  snd (run_steps (prologue w) init).

(** A card with everything, at a given price and location. *)
Definition villa (price location : string) : card :=
  {| c_multimedia := true; c_title := true; c_price := Some price;
     c_location := Some location; c_amenities := [JString "Pool"] |}.

Definition without_price (c : card) : card :=
  {| c_multimedia := c_multimedia c; c_title := c_title c; c_price := None;
     c_location := c_location c; c_amenities := c_amenities c |}.

Definition without_title (c : card) : card :=
  {| c_multimedia := c_multimedia c; c_title := false; c_price := c_price c;
     c_location := c_location c; c_amenities := c_amenities c |}.

(** The price text with the currency sign and the separators removed. *)
Definition cleaned (price_text : string) : string :=
  Py.remove_char "," (Py.remove_char "$" price_text).

Definition value_error (s : string) : exn :=
  Exn ValueError ("could not convert string to float: " ++ Py.repr_str s) None.

(** The page of the listing scenario: three cards, the second without a
    price element. *)
Definition second_card_unpriced : list card :=
  [villa "$120" "Malibu"; without_price (villa "$150" "Malibu");
   villa "$300" "Malibu"].

(** The same three cards, the first without a title instead. *)
Definition first_card_untitled : list card :=
  [without_title (villa "$120" "Malibu"); villa "$150" "Malibu";
   villa "$300" "Malibu"].

(** What the listing assertions (lines 53-63) raise on a page. *)
Definition listing_failure (cards : list card) : exn + unit :=
  fst (listing_assertions (fixture_world cards)
         (after_prologue (fixture_world cards))).

(** A failure message that identifies the defect of a page must tell it
    from a different defect of another page. *)
Definition tells_apart (cards cards' : list card) : Prop :=
  forall e e',
    listing_failure cards = inl e ->
    listing_failure cards' = inl e' ->
    exn_msg e <> exn_msg e'.

(** The elements on which a child was looked up, in order. *)
Definition looked_up (e : event) : option elem :=
  match e with
  | EvCall c _ =>
      match c with
      | ElemQuerySelector el _ => Some el
      | _ => None
      end
  | _ => None
  end.

Definition cards_inspected (tr : list event) : list elem :=
  flat_map (fun e => opt_list (looked_up e)) tr.

(** What the price assertion (lines 74-76) makes of one price text. *)
Definition price_check (price_text : string) : exn + unit :=
  match Py.float_of_string (cleaned price_text) with
  | None => inl (value_error (cleaned price_text))
  | Some v =>
      if in_price_range v then inr tt
      else inl (Exn AssertionError
                  ("Villa price " ++ Py.repr_float v ++ " out of range") None)
  end.


(** A page of complete cards with the given price texts. *)
Definition priced_page (price_texts : list string) : list card :=
  map (fun t => villa t "Malibu") price_texts.






Definition index_error : exn := Exn IndexError "list index out of range" None.

(** The locals [context] and [page] are set. *)
Definition session_ready (st : State) : Prop :=
  (exists c, context_ st = Some c) /\ (exists p, page_ st = Some p).

(** The failures of a click or fill statement in a ready session. *)
Definition interaction_failure (e : exn) : Prop :=
  is_playwright_error e = true \/ e = index_error.

Definition fails_as_interaction (s : M unit) : Prop :=
  forall st e st',
    session_ready st -> s st = (inl e, st') -> interaction_failure e.

(** ** What the assertions of TC004 make of a card *)

(** The first failure of [check] along a list. *)
Fixpoint first_failure {A} (check : A -> exn + unit) (xs : list A) : exn + unit :=
  match xs with
  | [] => inr tt
  | x :: rest =>
      match check x with
      | inl e => inl e
      | inr _ => first_failure check rest
      end
  end.

(** An assertion group on a page: the page must show a card, and then
    the first failing card decides. *)
Definition page_verdict (empty_message : string) (check : card -> exn + unit)
  (cards : list card) : exn + unit :=
  match cards with
  | [] => inl (Exn AssertionError empty_message None)
  | _ => first_failure check cards
  end.


(** lines 68-69 *)
Definition card_location_check (c : card) : exn + unit :=
  match c_location c with
  | None => inl (none_has_no "inner_text")
  | Some t =>
      if Py.contains "Expected Location" t then inr tt
      else inl (Exn AssertionError
                  ("Villa location " ++ t ++ " does not match filter") None)
  end.


(** lines 81-83 *)
Definition card_amenities_check (c : card) : exn + unit :=
  if existsb is_pool (c_amenities c) then inr tt
  else inl (Exn AssertionError "Villa missing required amenity: Pool" None).

Definition location_ok (c : card) : bool :=
  match c_location c with
  | Some t => Py.contains "Expected Location" t
  | None => false
  end.


Definition has_pool (c : card) : bool := existsb is_pool (c_amenities c).

(** The shape shared by the four assertion groups: select the cards,
    require one, check each. *)
Definition assertion_group (w : World) (empty_message : string)
  (check : elem -> M unit) : M unit :=
  (p <- load_page ;;
   villas <- perform w (PageQuerySelectorAll p ".villa-card") ;;
   assert_ (Nat.ltb 0 (List.length villas)) empty_message ;;
   foreach villas check)%script.


Definition location_verdict : list card -> exn + unit :=
  page_verdict "No villas found after applying location filter"
    card_location_check.


Definition amenities_verdict : list card -> exn + unit :=
  page_verdict "No villas found after applying amenities filter"
    card_amenities_check.



(** A whole number written with the decimal digits [ds], most
    significant first, and its value. *)
Definition numeral (ds : list Z) : string :=
  string_of_list_ascii (map Py.digit_char ds).

Definition decimal_value (ds : list Z) : Z :=
  fold_left (fun acc d => 10 * acc + d) ds 0.

Definition is_decimal_digit (d : Z) : Prop := 0 <= d < 10.

(** * Theory *)

Local Open Scope list_scope.

(** ** Sequencing *)

Lemma bind_ok {A B} (m : M A) (f : A -> M B) st a st' :
  m st = (inr a, st') -> bind m f st = f a st'.
Proof. unfold bind; intros ->; reflexivity. Qed.

Lemma bind_raise {A B} (m : M A) (f : A -> M B) st e st' :
  m st = (inl e, st') -> bind m f st = (inl e, st').
Proof. unfold bind; intros ->; reflexivity. Qed.

Lemma run_steps_app (l1 l2 : list (M unit)) st :
  run_steps (l1 ++ l2) st = bind (run_steps l1) (fun _ => run_steps l2) st.
Proof.
  revert st; induction l1 as [|s l1 IH]; intros st; simpl.
  - reflexivity.
  - unfold bind in *. destruct (s st) as [[e|[]] st1].
    + reflexivity.
    + apply IH.
Qed.

(** A failing statement ends the statement list: what follows it does
    not run. *)
Lemma run_steps_stops (pre post : list (M unit)) (s : M unit) st st1 e st2 :
  run_steps pre st = (inr tt, st1) ->
  s st1 = (inl e, st2) ->
  run_steps (pre ++ s :: post) st = (inl e, st2).
Proof.
  intros Hpre Hs. rewrite run_steps_app. rewrite (bind_ok _ _ _ Hpre).
  simpl. apply bind_raise. exact Hs.
Qed.

Lemma run_steps_prefix_raises (pre post : list (M unit)) st e st1 :
  run_steps pre st = (inl e, st1) ->
  run_steps (pre ++ post) st = (inl e, st1).
Proof. intros H. rewrite run_steps_app. apply bind_raise. exact H. Qed.

(** ** Quiet fragments *)

Section Quiet.

Variable w : World.
Variable P : event -> bool.

Lemma same_locals_refl st : same_locals st st.
Proof. repeat split. Qed.

Lemma same_locals_trans st1 st2 st3 :
  same_locals st1 st2 -> same_locals st2 st3 -> same_locals st1 st3.
Proof.
  unfold same_locals. intros (a & b & c & d) (a' & b' & c' & d').
  repeat split; congruence.
Qed.

Lemma same_locals_log e st : same_locals st (log e st).
Proof. repeat split. Qed.

Lemma quiet_ret {A} (a : A) : quiet P (ret a).
Proof.
  intros st. exists []. simpl. rewrite app_nil_r.
  auto using same_locals_refl.
Qed.

Lemma quiet_raise {A} (e : exn) : quiet P (@raise_ A e).
Proof.
  intros st. exists []. simpl. rewrite app_nil_r.
  auto using same_locals_refl.
Qed.

Lemma quiet_bind {A B} (m : M A) (f : A -> M B) :
  quiet P m -> (forall a, quiet P (f a)) -> quiet P (bind m f).
Proof.
  intros Hm Hf st. unfold bind.
  destruct (Hm st) as (l1 & E1 & F1 & L1).
  destruct (m st) as [[e|a] st1]; simpl in *.
  - exists l1. auto.
  - destruct (Hf a st1) as (l2 & E2 & F2 & L2).
    exists (l1 ++ l2)%list. rewrite E2, E1, app_assoc, forallb_app, F1, F2.
    eauto using same_locals_trans.
Qed.

Lemma quiet_perform {A} (c : call A) :
  (forall r, P (EvCall c r) = true) -> quiet P (perform w c).
Proof.
  intros H st. eexists [_]. simpl. rewrite H.
  auto using same_locals_log.
Qed.

Lemma quiet_read {A} (q : query A) :
  (forall r, P (EvQuery q r) = true) -> quiet P (read w q).
Proof.
  intros H st. eexists [_]. simpl. rewrite H.
  auto using same_locals_log.
Qed.

Lemma quiet_emit e : P e = true -> quiet P (emit e).
Proof.
  intros H st. exists [e]. simpl. rewrite H.
  auto using same_locals_log.
Qed.

Lemma quiet_assert b msg : quiet P (assert_ b msg).
Proof. destruct b; [apply quiet_ret | apply quiet_raise]. Qed.

Lemma quiet_load {A} (var : State -> option A) attr : quiet P (load var attr).
Proof.
  intros st. exists []. unfold load. rewrite app_nil_r.
  destruct (var st); simpl; auto using same_locals_refl.
Qed.

Lemma quiet_load_page : quiet P load_page.
Proof.
  intros st. exists []. unfold load_page. rewrite app_nil_r.
  destruct (page_ st); simpl; auto using same_locals_refl.
Qed.

Lemma quiet_try_except_pw (m : M unit) : quiet P m -> quiet P (try_except_pw m).
Proof.
  intros Hm st. unfold try_except_pw.
  destruct (Hm st) as (l & E & F & L).
  destruct (m st) as [[e|a] st1]; simpl in *.
  - destruct (is_playwright_error e); simpl; eauto.
  - eauto.
Qed.



Lemma quiet_run_steps (steps : list (M unit)) :
  Forall (quiet P) steps -> quiet P (run_steps steps).
Proof.
  induction 1 as [|s steps Hs _ IH]; simpl.
  - apply quiet_ret.
  - apply quiet_bind; auto.
Qed.

Lemma quiet_last_page :
  (forall c r, P (EvQuery (ContextPages c) r) = true) -> quiet P (last_page w).
Proof.
  intros H. unfold last_page.
  apply quiet_bind; [apply quiet_load|intros c].
  apply quiet_bind; [apply quiet_read; auto|intros pages].
  destruct (rev pages); [apply quiet_raise | apply quiet_ret].
Qed.

End Quiet.

(** The click and fill statements talk to the page and nothing else. *)
Lemma quiet_click w selector : quiet is_interaction (click w selector).
Proof.
  unfold click.
  apply quiet_bind; [apply quiet_last_page; reflexivity|intros f].
  apply quiet_bind; [apply quiet_load_page|intros p].
  apply quiet_bind; [apply quiet_perform; reflexivity|intros _].
  apply quiet_perform; reflexivity.
Qed.

Lemma quiet_fill w selector text : quiet is_interaction (fill w selector text).
Proof.
  unfold fill.
  apply quiet_bind; [apply quiet_last_page; reflexivity|intros f].
  apply quiet_bind; [apply quiet_load_page|intros p].
  apply quiet_bind; [apply quiet_perform; reflexivity|intros _].
  apply quiet_perform; reflexivity.
Qed.

Lemma quiet_assert_false : quiet is_interaction assert_false.
Proof. apply quiet_assert. Qed.

(** ** States after interactions *)

Lemma extend_nil st : extend st [] = st.
Proof. destruct st; unfold extend; simpl. rewrite app_nil_r. reflexivity. Qed.

Lemma extend_extend st l1 l2 : extend (extend st l1) l2 = extend st (l1 ++ l2).
Proof. unfold extend; simpl. rewrite app_assoc. reflexivity. Qed.

Lemma same_locals_extend st l : same_locals st (extend st l).
Proof. repeat split. Qed.

Lemma quiet_state P A (m : M A) st :
  quiet P m ->
  exists l, snd (m st) = extend st l /\ forallb P l = true.
Proof.
  intros H. destruct (H st) as (l & E & F & (a & b & c & d)).
  exists l. split; [|exact F].
  destruct (snd (m st)) as [t x y z u]; unfold extend; simpl in *.
  congruence.
Qed.

(** ** The phases of the [try] suite *)

Ltac answer w :=
  match goal with
  | |- context [respond w ?k ?c] =>
      let r := fresh "r" in
      destruct (respond w k c) as [[?|?]|?] eqn:r; cbn
  end.

(** Lines 11-29: a failure is an engine error; what the trace shows as
    acquired is what the locals hold. *)
Lemma acquire_cases w :
  let r := run_steps (acquire_steps w) init in
  forallb is_setup (trace (snd r)) = true
  /\ acquisitions (trace (snd r)) = held (snd r)
  /\ releases (trace (snd r)) = []
  /\ session_shape (held (snd r)) = true
  /\ match fst r with
     | inr _ => page_ (snd r) <> None
     | inl e => is_playwright_error e = true
     end.
Proof.
  unfold acquire_steps, run_steps, start_playwright, launch_browser,
    new_context, set_default_timeout, new_page, bind, perform, load, emit,
    store_pw, store_browser, store_context, store_page, ret, init, log.
  cbn. repeat answer w; repeat split; auto; discriminate.
Qed.

Lemma log_extend e st : log e st = extend st [e].
Proof. reflexivity. Qed.

(** Lines 41-45: one soft wait per frame, none of which can fail the run. *)
Lemma wait_frames_all w frames st :
  exists waits,
    foreach frames (wait_frame_loaded w) st = (inr tt, extend st waits)
    /\ Forall2 frame_wait_of waits frames.
Proof.
  revert st. induction frames as [|f frames IH]; intros st.
  - exists []. rewrite extend_nil. split; [reflexivity|constructor].
  - simpl. unfold bind, wait_frame_loaded at 1, try_except_pw, perform.
    set (r := respond w _ _).
    destruct (IH (log (EvCall (FrameWaitForLoadState f "domcontentloaded" 3000) r) st))
      as (waits & E & F).
    exists (EvCall (FrameWaitForLoadState f "domcontentloaded" 3000) r :: waits).
    split.
    + destruct r as [[m|m]|[]]; simpl; rewrite E, log_extend, extend_extend;
        reflexivity.
    + constructor; [exists r; reflexivity | exact F].
Qed.

Lemma goto_home_eq w st p :
  page_ st = Some p ->
  let r := respond w (List.length (trace st)) (Goto p home (Some "commit") 10000) in
  goto_home w st
  = (match r with inl e => inl (exn_of_pw e) | inr a => inr a end,
     extend st [EvCall (Goto p home (Some "commit") 10000) r]).
Proof.
  intros Hp. unfold goto_home, bind, load_page, perform. rewrite Hp.
  reflexivity.
Qed.

Lemma wait_page_loaded_eq w st p :
  page_ st = Some p ->
  exists r,
    wait_page_loaded w st
    = (inr tt, extend st [EvCall (PageWaitForLoadState p "domcontentloaded" 3000) r]).
Proof.
  intros Hp. unfold wait_page_loaded, try_except_pw, bind, load_page, perform.
  rewrite Hp.
  exists (respond w (List.length (trace st))
            (PageWaitForLoadState p "domcontentloaded" 3000)).
  destruct (respond w _ _) as [[m|m]|[]]; reflexivity.
Qed.

Lemma wait_frames_loaded_eq w st p :
  page_ st = Some p ->
  exists frames waits,
    wait_frames_loaded w st
    = (inr tt, extend st (EvQuery (PageFrames p) frames :: waits))
    /\ Forall2 frame_wait_of waits frames.
Proof.
  intros Hp. unfold wait_frames_loaded, bind, load_page, read. rewrite Hp.
  set (frames := observe w _ _).
  destruct (wait_frames_all w frames (log (EvQuery (PageFrames p) frames) st))
    as (waits & E & F).
  exists frames, waits. rewrite E, log_extend, extend_extend. auto.
Qed.

(** Lines 32-45. *)
Lemma navigate_cases w st p :
  page_ st = Some p ->
  exists nav res,
    run_steps (navigate_steps w) st = (res, extend st nav)
    /\ match res with
       | inr _ =>
           exists l, nav = EvCall (Goto p home (Some "commit") 10000) (inr tt) :: l
                     /\ discovery p l
       | inl e =>
           exists err, e = exn_of_pw err
                       /\ nav = [EvCall (Goto p home (Some "commit") 10000) (inl err)]
       end.
Proof.
  intros Hp. unfold navigate_steps, run_steps.
  unfold bind at 1. rewrite (goto_home_eq w st Hp). cbv zeta.
  destruct (respond w (List.length (trace st)) (Goto p home (Some "commit") 10000))
    as [err|[]].
  - do 2 eexists. split; [reflexivity|]. exists err. auto.
  - set (st1 := extend st _).
    destruct (wait_page_loaded_eq w st1 (p:=p) Hp) as (r & E1).
    unfold bind at 1. rewrite E1.
    set (st2 := extend st1 _).
    destruct (wait_frames_loaded_eq w st2 (p:=p) Hp) as (frames & waits & E2 & F).
    unfold bind. rewrite E2. unfold ret.
    subst st2 st1. rewrite !extend_extend. do 2 eexists. split; [reflexivity|].
    eexists. split; [reflexivity|].
    exists r, frames, waits. auto.
Qed.

(** ** Statements that always raise *)

Lemma scroll_down_always_raises w : always_raises (scroll_down w).
Proof.
  intros st. unfold scroll_down, bind, load_page, window_innerHeight, raise_.
  destruct (page_ st); eauto.
Qed.

Lemma scroll_down_name_error w st p :
  page_ st = Some p -> scroll_down w st = (inl name_error_window, st).
Proof.
  intros Hp. unfold scroll_down, bind, load_page, window_innerHeight, raise_.
  rewrite Hp. reflexivity.
Qed.

Lemma assert_false_raises st : assert_false st = (inl generic_assertion_error, st).
Proof. reflexivity. Qed.

Lemma assert_false_always_raises : always_raises assert_false.
Proof. intros st. eexists. apply assert_false_raises. Qed.

Lemma run_steps_cut pre s post :
  always_raises s ->
  forall st, run_steps (pre ++ s :: post) st = run_steps (pre ++ [s]) st.
Proof.
  intros Hs st. rewrite !run_steps_app. unfold bind.
  destruct (run_steps pre st) as [[e|[]] st1]; [reflexivity|].
  simpl. unfold bind. destruct (Hs st1) as (e & ->). reflexivity.
Qed.

Lemma run_steps_never_returns pre s :
  always_raises s ->
  forall st, exists e st', run_steps (pre ++ [s]) st = (inl e, st').
Proof.
  intros Hs st. rewrite run_steps_app. unfold bind.
  destruct (run_steps pre st) as [[e|[]] st1]; [eauto|].
  simpl. unfold bind. destruct (Hs st1) as (e & ->). eauto.
Qed.

Lemma scenario_split w sc :
  scenario_steps w sc = before_stop w sc ++ stop w sc :: after_stop w sc.
Proof. destruct sc; reflexivity. Qed.

Lemma stop_always_raises w sc : always_raises (stop w sc).
Proof.
  destruct sc; simpl;
    auto using scroll_down_always_raises, assert_false_always_raises.
Qed.

Lemma quiet_before_stop w sc : Forall (quiet is_interaction) (before_stop w sc).
Proof.
  destruct sc; simpl;
    repeat (apply Forall_cons; [first [apply quiet_click | apply quiet_fill]|]);
    apply Forall_nil.
Qed.

(** Lines 47 onwards: every scenario ends by raising, after click and
    fill interactions only. *)
Lemma scenario_cases w sc st :
  exists scn e,
    run_steps (scenario_steps w sc) st = (inl e, extend st scn)
    /\ forallb is_interaction scn = true
    /\ (sc <> TC007 ->
        scn = [] /\ forall p, page_ st = Some p -> e = name_error_window).
Proof.
  assert (Hscroll : forall rest,
    exists e, run_steps (scroll_down w :: rest) st = (inl e, extend st [])
              /\ forall p, page_ st = Some p -> e = name_error_window).
  { intros rest. destruct (scroll_down_always_raises w st) as (e & He).
    exists e. rewrite extend_nil. simpl. unfold bind. rewrite He.
    split; [reflexivity|]. intros p Hp.
    rewrite (scroll_down_name_error w st (p:=p) Hp) in He. congruence. }
  destruct sc;
    try (destruct (Hscroll (tl (scenario_steps w TC004))) as (e & He & Hn);
         exists [], e; now auto);
    try (destruct (Hscroll (tl (scenario_steps w TC005))) as (e & He & Hn);
         exists [], e; now auto);
    try (destruct (Hscroll (tl (scenario_steps w TC012))) as (e & He & Hn);
         exists [], e; now auto).
  rewrite scenario_split, (run_steps_cut _ _ (stop_always_raises w TC007)).
  rewrite run_steps_app. unfold bind.
  destruct (quiet_state st (quiet_run_steps (quiet_before_stop w TC007)))
    as (l & E & F).
  destruct (run_steps (before_stop w TC007) st) as [[e|[]] st1];
    simpl in E; subst st1.
  - exists l, e. repeat split; auto; congruence.
  - exists l, generic_assertion_error. repeat split; auto; congruence.
Qed.

Lemma exn_of_pw_is_playwright err : is_playwright_error (exn_of_pw err) = true.
Proof. destruct err; reflexivity. Qed.

(** Lines 9-45. *)
Lemma prologue_cases w :
  exists acq nav res st,
    run_steps (prologue w) init = (res, st)
    /\ trace st = acq ++ nav
    /\ forallb is_setup acq = true
    /\ nav_shape nav
    /\ acquisitions acq = held st
    /\ session_shape (held st) = true
    /\ match res with
       | inr _ => exists p, page_ st = Some p
       | inl e => is_playwright_error e = true
       end.
Proof.
  unfold prologue. pose proof (acquire_cases w) as H. cbv zeta in H.
  destruct (run_steps (acquire_steps w) init) as [[e|[]] st0] eqn:R;
    simpl in H; destruct H as (Hs & Ha & _ & Hsh & Hr).
  - exists (trace st0), [], (inl e), st0.
    rewrite (run_steps_prefix_raises _ _ _ R), app_nil_r.
    repeat split; auto. left; reflexivity.
  - destruct (page_ st0) as [p|] eqn:Hp; [|congruence].
    destruct (navigate_cases w st0 Hp) as (nav & res & Hn & Hres).
    exists (trace st0), nav, res, (extend st0 nav).
    rewrite run_steps_app, (bind_ok _ _ _ R), Hn.
    repeat split; auto.
    + destruct res as [e|[]].
      * destruct Hres as (err & _ & ->). right; left; eauto.
      * destruct Hres as (l & -> & Hd). right; right; eauto.
    + destruct res as [e|[]].
      * destruct Hres as (err & -> & _). apply exn_of_pw_is_playwright.
      * exists p. exact Hp.
Qed.

(** The [try] suite never returns: it is left by an exception in every
    world.  Its trace is the setup, then the first navigation with frame
    discovery, then click and fill interactions. *)
Lemma body_cases w sc :
  exists acq nav scn e st,
    body w sc init = (inl e, st)
    /\ trace st = acq ++ nav ++ scn
    /\ forallb is_setup acq = true
    /\ nav_shape nav
    /\ forallb is_interaction scn = true
    /\ acquisitions acq = held st
    /\ session_shape (held st) = true
    /\ (sc <> TC007 ->
        scn = [] /\ (is_playwright_error e = true \/ e = name_error_window)).
Proof.
  destruct (prologue_cases w) as (acq & nav & res & st & R & Ht & Hs & Hn & Ha & Hsh & Hres).
  unfold body, body_steps.
  destruct res as [e|[]].
  - exists acq, nav, [], e, st.
    rewrite (run_steps_prefix_raises _ _ _ R), app_nil_r.
    repeat split; auto.
  - destruct Hres as (p & Hp).
    destruct (scenario_cases w sc st) as (scn & e & Hrun & Hi & Hnot7).
    exists acq, nav, scn, e, (extend st scn).
    rewrite run_steps_app, (bind_ok _ _ _ R), Hrun.
    repeat split; auto.
    + simpl. rewrite Ht, app_assoc. reflexivity.
    + apply Hnot7; assumption.
    + right. destruct (Hnot7 H) as (_ & Hne). eauto.
Qed.

(** ** The [finally] suite *)

(** From any state the suite makes only closing calls, in the order
    context, browser, engine over the locals that are set; it makes them
    all unless one of them raises, and then that one is its last. *)
Lemma teardown_cases w st :
  exists td res,
    teardown w st = (res, extend st td)
    /\ forallb is_release td = true
    /\ (exists k, releases td = firstn k (rev (held st)))
    /\ match res with
       | inr _ => all_succeeded td = true /\ releases td = rev (held st)
       | inl e =>
           exists td' A (c : call A) err,
             td = td' ++ [EvCall c (inl err)]
             /\ e = exn_of_pw err
             /\ all_succeeded td' = true
       end.
Proof.
  destruct st as [tr [p|] [b|] [c|] pg];
    unfold teardown, when_set, bind, perform, ret, held, log, extend; cbn;
    repeat answer w; try rewrite <- !app_assoc; cbn.
  all: first [ do 2 eexists; split; [reflexivity|]
             | exists [], (inr tt); rewrite app_nil_r; split; [reflexivity|] ];
    cbn.
  all: split; [reflexivity|].
  all: split;
    [ first [ exists 0%nat; reflexivity | exists 1%nat; reflexivity
            | exists 2%nat; reflexivity | exists 3%nat; reflexivity ] | ].
  all: try (split; reflexivity).
  all: first [ exists []; do 3 eexists; split; [reflexivity|]; split; reflexivity
             | eexists [_]; do 3 eexists; split; [reflexivity|]; split; reflexivity
             | eexists [_; _]; do 3 eexists; split; [reflexivity|]; split;
               reflexivity ].
Qed.

(** ** Traces of whole runs *)

Lemma acquisitions_app l1 l2 :
  acquisitions (l1 ++ l2) = acquisitions l1 ++ acquisitions l2.
Proof. apply flat_map_app. Qed.

Lemma releases_app l1 l2 : releases (l1 ++ l2) = releases l1 ++ releases l2.
Proof. apply flat_map_app. Qed.

Lemma forallb_impl {A} (P Q : A -> bool) l :
  (forall x, P x = true -> Q x = true) ->
  forallb P l = true -> forallb Q l = true.
Proof.
  intros H. rewrite !forallb_forall. auto.
Qed.

Lemma flat_map_none {A B} (f : A -> option B) (P : A -> bool) l :
  (forall x, P x = true -> f x = None) ->
  forallb P l = true ->
  flat_map (fun x => opt_list (f x)) l = [].
Proof.
  intros H. induction l as [|x l IH]; simpl; [reflexivity|].
  intros F. apply andb_prop in F as (Fx & Fl).
  rewrite (H x Fx), IH; auto.
Qed.

Lemma body_event_no_release e : is_body_event e = true -> released_by e = None.
Proof.
  destruct e as [A c r|A q r| |]; try reflexivity; destruct c; simpl;
    try reflexivity; discriminate.
Qed.

Lemma late_event_no_acquisition e :
  (is_nav_event e || is_interaction e)%bool = true -> acquired_by e = None.
Proof.
  destruct e as [A c r|A q r| |]; try reflexivity; destruct c; simpl;
    try reflexivity; discriminate.
Qed.

Lemma releases_none l : forallb is_body_event l = true -> releases l = [].
Proof. apply flat_map_none, body_event_no_release. Qed.

Lemma acquisitions_none l :
  forallb (fun e => is_nav_event e || is_interaction e)%bool l = true ->
  acquisitions l = [].
Proof. apply flat_map_none, late_event_no_acquisition. Qed.

Lemma frame_waits_nav waits frames :
  Forall2 frame_wait_of waits frames -> forallb is_nav_event waits = true.
Proof.
  induction 1 as [|e f waits frames (r & ->) _ IH]; simpl; auto.
Qed.

Lemma nav_shape_events nav : nav_shape nav -> forallb is_nav_event nav = true.
Proof.
  intros [->|[(p & err & ->)|(p & l & -> & (r & frames & waits & -> & F))]];
    simpl; auto. eapply frame_waits_nav; eassumption.
Qed.

(** A whole run: the [try] suite raises [e] and leaves [st1]; the
    [finally] suite then makes the closing calls [td]. *)
Lemma run_cases w sc :
  exists acq nav scn e st1 td res,
    body w sc init = (inl e, st1)
    /\ teardown w st1 = (res, extend st1 td)
    /\ run w sc
       = (match res with
          | inr _ => inl e
          | inl e' => inl (with_context (Some e) e')
          end, extend st1 td)
    /\ trace st1 = acq ++ nav ++ scn
    /\ forallb is_setup acq = true
    /\ nav_shape nav
    /\ forallb is_interaction scn = true
    /\ acquisitions (trace st1) = held st1
    /\ releases (trace st1) = []
    /\ session_shape (held st1) = true
    /\ (sc <> TC007 ->
        scn = [] /\ (is_playwright_error e = true \/ e = name_error_window)).
Proof.
  destruct (body_cases w sc)
    as (acq & nav & scn & e & st1 & Hb & Ht & Hs & Hn & Hi & Ha & Hsh & H7).
  destruct (teardown_cases w st1) as (td & res & Htd & _).
  exists acq, nav, scn, e, st1, td, res.
  pose proof (nav_shape_events Hn) as Hne.
  repeat split; auto; try (apply H7; assumption).
  - unfold run, run_test, try_finally. rewrite Hb, Htd.
    destruct res as [e'|[]]; reflexivity.
  - rewrite Ht, !acquisitions_app.
    rewrite (acquisitions_none nav), (acquisitions_none scn).
    + rewrite !app_nil_r. exact Ha.
    + revert Hi. apply forallb_impl. intros x ->. apply orb_true_r.
    + revert Hne. apply forallb_impl. intros x ->. reflexivity.
  - rewrite Ht. apply releases_none.
    rewrite !forallb_app. unfold is_body_event.
    assert (forallb (fun e => is_setup e || is_nav_event e || is_interaction e)%bool
              acq = true) as ->
      by (revert Hs; apply forallb_impl; intros x ->; reflexivity).
    assert (forallb (fun e => is_setup e || is_nav_event e || is_interaction e)%bool
              nav = true) as ->
      by (revert Hne; apply forallb_impl; intros x ->;
          rewrite orb_true_r; reflexivity).
    assert (forallb (fun e => is_setup e || is_nav_event e || is_interaction e)%bool
              scn = true) as ->
      by (revert Hi; apply forallb_impl; intros x ->; apply orb_true_r).
    reflexivity.
Qed.




(** ** Failures while closing *)

(** When the context cannot be closed, the assertion failure of TC007 is
    no longer what the run raises, and browser and engine stay open. *)
Lemma teardown_error_masks_failure :
  ~ teardown_errors_suppressed context_close_fails TC007.
Proof.
  intros H.
  destruct (H generic_assertion_error
              (snd (body context_close_fails TC007 init))) as (Ho & _).
  - vm_compute. reflexivity.
  - vm_compute in Ho. discriminate.
Qed.

(** C2, as the scripts have it.  When the [try] suite fails with [E]:
    if the closing calls all succeed the run raises [E] and everything
    acquired is closed; a closing call that raises [E'] is not caught: it
    is the last interaction of the run, so the resources after it stay
    open, and the run raises [E'] with [E] as its context. *)
Theorem teardown_error_replaces_failure w sc E st1 :
  body w sc init = (inl E, st1) ->
  exists td res,
    teardown w st1 = (res, extend st1 td)
    /\ final_trace w sc = trace st1 ++ td
    /\ match res with
       | inr _ =>
           outcome w sc = inl E
           /\ releases td = rev (acquisitions (trace st1))
       | inl E' =>
           outcome w sc = inl (with_context (Some E) E')
           /\ is_playwright_error E' = true
           /\ exists td' A (c : call A) err,
                td = td' ++ [EvCall c (inl err)]
                /\ E' = exn_of_pw err
                /\ is_release (EvCall c (inl err)) = true
                /\ all_succeeded td' = true
       end.
Proof.
  intros Hb.
  destruct (run_cases w sc)
    as (acq & nav & scn & e & st1' & td & res & Hb' & Htd & Hrun & _ & _ & _ & _
        & Ha & _).
  rewrite Hb in Hb'. injection Hb' as <- <-.
  destruct (teardown_cases w st1) as (td' & res' & Htd' & Hrel & _ & Hres).
  rewrite Htd in Htd'. injection Htd' as <- Hext.
  apply app_inv_head in Hext. subst td'.
  exists td, res. split; [exact Htd|].
  unfold final_trace, outcome. rewrite Hrun. simpl. split; [reflexivity|].
  destruct res as [E'|[]].
  - destruct Hres as (td0 & A & c & err & -> & -> & Hok).
    split; [reflexivity|]. split; [apply exn_of_pw_is_playwright|].
    exists td0, A, c, err. repeat split; auto.
    rewrite forallb_app in Hrel. apply andb_prop in Hrel as (_ & Hrel).
    simpl in Hrel. rewrite andb_true_r in Hrel. exact Hrel.
  - destruct Hres as (_ & ->). rewrite Ha. auto.
Qed.

Lemma teardown_error_replaces_failure_witness :
  exists td res,
    teardown happy_world (snd (body happy_world TC007 init))
    = (res, extend (snd (body happy_world TC007 init)) td)
    /\ final_trace happy_world TC007
       = trace (snd (body happy_world TC007 init)) ++ td.
Proof.
  destruct (@teardown_error_replaces_failure happy_world TC007
              generic_assertion_error (snd (body happy_world TC007 init)))
    as (td & res & H1 & H2 & _).
  - vm_compute. reflexivity.
  - exists td, res. split; assumption.
Defined.

(** ** Hard steps *)

Lemma nth_error_decompose {A} (l : list A) n a :
  nth_error l n = Some a -> l = firstn n l ++ a :: skipn (S n) l.
Proof.
  revert l. induction n as [|n IH]; intros [|x l] H; try discriminate.
  - injection H as ->. reflexivity.
  - simpl. f_equal. apply IH. exact H.
Qed.

(** The failure of a statement ends the statement list at once. *)
Lemma failing_step_stops (steps : list (M unit)) n s st0 st e st' :
  nth_error steps n = Some s ->
  run_steps (firstn n steps) st0 = (inr tt, st) ->
  s st = (inl e, st') ->
  run_steps steps st0 = (inl e, st').
Proof.
  intros Hn Hpre Hs. rewrite (nth_error_decompose _ _ Hn).
  eapply run_steps_stops; eassumption.
Qed.

Section Reasons.

Variable w : World.

Lemma raises_ok_bind {A B} (m : M A) (f : A -> M B) :
  raises_ok m -> (forall a, raises_ok (f a)) -> raises_ok (bind m f).
Proof.
  intros Hm Hf st e st'. unfold bind.
  destruct (m st) as [[e0|a] st1] eqn:E.
  - intros H. injection H as <- <-. eapply Hm; eassumption.
  - apply Hf.
Qed.

Lemma raises_ok_perform {A} (c : call A) : raises_ok (perform w c).
Proof.
  intros st e st'. unfold perform.
  destruct (respond w _ c) as [err|a]; intros H; [|discriminate].
  injection H as <- _. left. apply exn_of_pw_is_playwright.
Qed.

Lemma raises_ok_run_steps (steps : list (M unit)) :
  Forall raises_ok steps -> raises_ok (run_steps steps).
Proof.
  induction 1 as [|s steps Hs _ IH]; simpl.
  - intros st e st' H. discriminate.
  - apply raises_ok_bind; auto.
Qed.

Lemma raises_ok_last_page : raises_ok (last_page w).
Proof.
  intros st e st'. unfold last_page, bind, load, read.
  destruct (context_ st); [|intros H; injection H as <- _; right; discriminate].
  destruct (rev _); intros H; [|discriminate].
  injection H as <- _. right. discriminate.
Qed.

Lemma raises_ok_load_page : raises_ok load_page.
Proof.
  intros st e st'. unfold load_page.
  destruct (page_ st); intros H; [discriminate|].
  injection H as <- _. right. discriminate.
Qed.

Lemma raises_ok_click selector : raises_ok (click w selector).
Proof.
  unfold click.
  apply raises_ok_bind; [apply raises_ok_last_page|intros f].
  apply raises_ok_bind; [apply raises_ok_load_page|intros p].
  apply raises_ok_bind; [apply raises_ok_perform|intros _].
  apply raises_ok_perform.
Qed.

Lemma raises_ok_fill selector text : raises_ok (fill w selector text).
Proof.
  unfold fill.
  apply raises_ok_bind; [apply raises_ok_last_page|intros f].
  apply raises_ok_bind; [apply raises_ok_load_page|intros p].
  apply raises_ok_bind; [apply raises_ok_perform|intros _].
  apply raises_ok_perform.
Qed.

Lemma raises_ok_scroll_down : raises_ok (scroll_down w).
Proof.
  intros st e st' H.
  destruct (scroll_down_always_raises w st) as (e0 & He).
  unfold scroll_down, bind, load_page, window_innerHeight, raise_ in H.
  destruct (page_ st); injection H as <- _; right; discriminate.
Qed.

Lemma raises_ok_assert_false : raises_ok assert_false.
Proof.
  intros st e st' H. rewrite assert_false_raises in H.
  injection H as <- _. right. discriminate.
Qed.

Lemma raises_ok_scenario sc : raises_ok (run_steps (scenario_steps w sc)).
Proof.
  intros st e st'.
  rewrite scenario_split, (run_steps_cut _ _ (stop_always_raises w sc)).
  apply raises_ok_run_steps. apply Forall_app. split.
  - destruct sc; simpl;
      repeat (apply Forall_cons;
              [first [apply raises_ok_click | apply raises_ok_fill]|]);
      apply Forall_nil.
  - apply Forall_cons; [|apply Forall_nil].
    destruct sc; simpl;
      auto using raises_ok_scroll_down, raises_ok_assert_false.
Qed.

(** Whatever leaves the [try] suite is an engine error or carries a
    non-empty text. *)
Lemma body_reason sc e st : body w sc init = (inl e, st) -> reason_ok e.
Proof.
  unfold body, body_steps. rewrite run_steps_app. unfold bind.
  destruct (prologue_cases w)
    as (acq & nav & res & st0 & R & _ & _ & _ & _ & _ & Hres).
  rewrite R. destruct res as [e0|[]].
  - intros H. injection H as <- _. left. exact Hres.
  - apply raises_ok_scenario.
Qed.

End Reasons.

(** With a navigation timeout followed by a failing [browser.close()]
    the run of TC004 does not report the timeout; and when the page
    goes away during the pause before the first click of TC007, the
    reason reported does not name the element the step was about. *)
Lemma first_failure_can_be_replaced :
  ~ first_failure_recorded goto_and_browser_close_fail TC004
  /\ (nth_error (body_steps page_closes_while_waiting TC007) 8
      = Some (click page_closes_while_waiting
                "xpath=html/body/div/div/div/div/div[2]/div/a[2]")
      /\ exists e,
           outcome page_closes_while_waiting TC007 = inl e
           /\ Py.contains "xpath=html/body/div/div/div/div/div[2]/div/a[2]"
                (exn_msg e) = false).
Proof.
  split.
  - intros H.
    destruct (H 5%nat (goto_home goto_and_browser_close_fail)
                (snd (run_steps
                        (firstn 5 (body_steps goto_and_browser_close_fail TC004))
                        init))
                (Exn PlaywrightTimeoutError "Page.goto: Timeout 10000ms exceeded." None)
                (snd (body goto_and_browser_close_fail TC004 init)))
      as (_ & Ho & _).
    + reflexivity.
    + vm_compute. reflexivity.
    + vm_compute. reflexivity.
    + vm_compute in Ho. discriminate.
  - split; [reflexivity|]. eexists. split; vm_compute; reflexivity.
Qed.

(** C3, as the scripts have it.  When the statement at position [n] of
    the [try] suite fails with [e], the suite ends there, in the state
    that statement left: no later statement runs, and only closing calls
    follow.  [e] is an engine error or has a non-empty text.  The run
    raises [e] itself when the closing calls succeed; otherwise it raises
    the closing failure, with [e] as its context. *)
Theorem failing_step_ends_try_suite w sc n s st e st' :
  nth_error (body_steps w sc) n = Some s ->
  run_steps (firstn n (body_steps w sc)) init = (inr tt, st) ->
  s st = (inl e, st') ->
  body w sc init = (inl e, st')
  /\ reason_ok e
  /\ exists td res,
       teardown w st' = (res, extend st' td)
       /\ final_trace w sc = trace st' ++ td
       /\ forallb is_release td = true
       /\ outcome w sc
          = match res with
            | inr _ => inl e
            | inl e' => inl (with_context (Some e) e')
            end.
Proof.
  intros Hn Hpre Hs.
  assert (Hb : body w sc init = (inl e, st'))
    by (eapply failing_step_stops; eassumption).
  split; [exact Hb|]. split; [eapply body_reason; eassumption|].
  destruct (teardown_cases w st') as (td & res & Htd & Hrel & _).
  exists td, res. repeat split; auto.
  - unfold final_trace, run, run_test, try_finally. rewrite Hb, Htd.
    destruct res as [e'|[]]; reflexivity.
  - unfold outcome, run, run_test, try_finally. rewrite Hb, Htd.
    destruct res as [e'|[]]; reflexivity.
Qed.

Lemma failing_step_ends_try_suite_witness :
  body happy_world TC007 init
  = (inl generic_assertion_error,
     snd (run_steps (firstn 26 (body_steps happy_world TC007)) init))
  /\ reason_ok generic_assertion_error.
Proof.
  destruct (@failing_step_ends_try_suite happy_world TC007 26 assert_false
              (snd (run_steps (firstn 26 (body_steps happy_world TC007)) init))
              generic_assertion_error
              (snd (run_steps (firstn 26 (body_steps happy_world TC007)) init)))
    as (H1 & H2 & _).
  - reflexivity.
  - vm_compute. reflexivity.
  - reflexivity.
  - split; assumption.
Defined.

(** ** Soft steps *)

Section Soft.

Variable w : World.

Let w' := waits_succeed w.

Lemma same_but_waits_length st st' :
  same_but_waits st st' -> List.length (trace st') = List.length (trace st).
Proof. intros (-> & _). apply length_map. Qed.

Lemma same_but_waits_log e st st' :
  same_but_waits st st' ->
  same_but_waits (log e st) (log (wait_succeeded e) st').
Proof.
  intros (Ht & a & b & c & d). unfold same_but_waits, log; simpl.
  rewrite Ht, map_app. auto.
Qed.

Lemma sim_ret {A} (a : A) : sim (ret a) (ret a).
Proof. intros st st' H. auto. Qed.

Lemma sim_raise {A} e : sim (@raise_ A e) (raise_ e).
Proof. intros st st' H. auto. Qed.

Lemma sim_bind {A B} (m m' : M A) (f f' : A -> M B) :
  sim m m' -> (forall a, sim (f a) (f' a)) -> sim (bind m f) (bind m' f').
Proof.
  intros Hm Hf st st' H. unfold bind.
  destruct (Hm st st' H) as (Hr & Hs).
  destruct (m st) as [[e|a] st1], (m' st') as [[e'|a'] st1'];
    simpl in *; try discriminate.
  - injection Hr as ->. auto.
  - injection Hr as ->. apply Hf. assumption.
Qed.

Lemma sim_perform {A} (c : call A) :
  is_load_state_wait c = false -> sim (perform w c) (perform w' c).
Proof.
  intros Hc st st' H. unfold perform. simpl.
  rewrite (same_but_waits_length H).
  assert (Hsoft : forall r, soften c r = r) by (destruct c; try discriminate; auto).
  rewrite !Hsoft. split; [reflexivity|].
  set (r := respond w _ c).
  replace (EvCall c r) with (wait_succeeded (EvCall c r)) at 2
    by (simpl; rewrite Hsoft; reflexivity).
  apply same_but_waits_log. assumption.
Qed.

Lemma sim_read {A} (q : query A) : sim (read w q) (read w' q).
Proof.
  intros st st' H. unfold read. simpl.
  rewrite (same_but_waits_length H). split; [reflexivity|].
  apply (same_but_waits_log (EvQuery q _)). assumption.
Qed.

Lemma sim_emit e : wait_succeeded e = e -> sim (emit e) (emit e).
Proof.
  intros He st st' H. unfold emit. simpl. split; [reflexivity|].
  rewrite <- He at 2. apply same_but_waits_log. assumption.
Qed.

Lemma sim_load {A} (var : State -> option A) attr :
  (forall st st', same_but_waits st st' -> var st' = var st) ->
  sim (load var attr) (load var attr).
Proof.
  intros Hv st st' H. unfold load. rewrite (Hv _ _ H).
  destruct (var st); auto.
Qed.

Lemma sim_load_page : sim load_page load_page.
Proof.
  intros st st' H. unfold load_page.
  pose proof H as (Ht & a & b & c & d). rewrite d.
  destruct (page_ st); simpl; auto.
Qed.

Lemma sim_run_steps (l l' : list (M unit)) :
  Forall2 sim l l' -> sim (run_steps l) (run_steps l').
Proof.
  induction 1 as [|s s' l l' Hs _ IH]; simpl.
  - apply sim_ret.
  - apply sim_bind; auto.
Qed.

Lemma sim_foreach {A} (xs : list A) (f f' : A -> M unit) :
  (forall x, sim (f x) (f' x)) -> sim (foreach xs f) (foreach xs f').
Proof.
  intros H. induction xs as [|x xs IH]; simpl.
  - apply sim_ret.
  - apply sim_bind; auto.
Qed.

Lemma sim_try_finally (m m' fin fin' : M unit) :
  sim m m' -> sim fin fin' -> sim (try_finally m fin) (try_finally m' fin').
Proof.
  intros Hm Hf st st' H. unfold try_finally.
  destruct (Hm st st' H) as (Hr & Hs).
  destruct (m st) as [r st1], (m' st') as [r' st1']; simpl in *. subst r'.
  destruct (Hf st1 st1' Hs) as (Hr & Hs').
  destruct (fin st1) as [q st2], (fin' st1') as [q' st2']; simpl in *. subst q'.
  destruct r as [e|[]], q as [e'|[]]; auto.
Qed.

(** A load-state wait, once wrapped in [try/except], behaves the same
    whether it succeeds or times out. *)
Lemma sim_wait_frame_loaded f : sim (wait_frame_loaded w f) (wait_frame_loaded w' f).
Proof.
  intros st st' H. unfold wait_frame_loaded, try_except_pw, perform. simpl.
  set (r := respond w _ _).
  assert (Hs : same_but_waits
                 (log (EvCall (FrameWaitForLoadState f "domcontentloaded" 3000) r) st)
                 (log (EvCall (FrameWaitForLoadState f "domcontentloaded" 3000) (inr tt)) st'))
    by (apply (same_but_waits_log (EvCall (FrameWaitForLoadState f _ _) r)); assumption).
  destruct r as [[m|m]|[]]; simpl; auto.
Qed.

Lemma sim_wait_page_loaded : sim (wait_page_loaded w) (wait_page_loaded w').
Proof.
  intros st st' H. unfold wait_page_loaded, try_except_pw, bind, load_page, perform.
  pose proof H as (Ht & a & b & c & d). rewrite d.
  destruct (page_ st) as [p|]; simpl; [|auto].
  set (r := respond w _ _).
  assert (Hs : same_but_waits
                 (log (EvCall (PageWaitForLoadState p "domcontentloaded" 3000) r) st)
                 (log (EvCall (PageWaitForLoadState p "domcontentloaded" 3000) (inr tt)) st'))
    by (apply (same_but_waits_log (EvCall (PageWaitForLoadState p _ _) r)); assumption).
  destruct r as [[m|m]|[]]; simpl; auto.
Qed.

End Soft.

Section SoftRuns.

Variable w : World.

Let w' := waits_succeed w.

Lemma sim_store_pw h : sim (store_pw h) (store_pw h).
Proof. intros st st' (a & b & c & d & e). repeat split; auto. Qed.

Lemma sim_store_browser h : sim (store_browser h) (store_browser h).
Proof. intros st st' (a & b & c & d & e). repeat split; auto. Qed.

Lemma sim_store_context h : sim (store_context h) (store_context h).
Proof. intros st st' (a & b & c & d & e). repeat split; auto. Qed.

Lemma sim_store_page h : sim (store_page h) (store_page h).
Proof. intros st st' (a & b & c & d & e). repeat split; auto. Qed.

Lemma sim_when_set {A} (var : State -> option A) (f f' : A -> M unit) :
  (forall st st', same_but_waits st st' -> var st' = var st) ->
  (forall h, sim (f h) (f' h)) ->
  sim (when_set var f) (when_set var f').
Proof.
  intros Hv Hf st st' H. unfold when_set. rewrite (Hv _ _ H).
  destruct (var st); [apply Hf; assumption|auto].
Qed.

Ltac same_var := intros ? ? (_ & ? & ? & ? & ?); assumption.

Ltac sim_step :=
  first
    [ apply sim_bind; [|intro]
    | apply sim_perform; reflexivity
    | apply sim_read
    | apply sim_emit; reflexivity
    | apply sim_load; same_var
    | apply sim_load_page
    | apply sim_store_pw | apply sim_store_browser
    | apply sim_store_context | apply sim_store_page
    | apply sim_raise | apply sim_ret
    | apply sim_wait_page_loaded
    | apply sim_foreach; intro; apply sim_wait_frame_loaded ].

Lemma sim_prologue : Forall2 sim (prologue w) (prologue w').
Proof.
  unfold prologue, acquire_steps, navigate_steps. simpl.
  repeat apply Forall2_cons; try apply Forall2_nil.
  all: unfold start_playwright, launch_browser, new_context,
         set_default_timeout, new_page, goto_home, wait_frames_loaded.
  all: repeat sim_step.
Qed.

Lemma sim_last_page : sim (last_page w) (last_page w').
Proof.
  unfold last_page. repeat sim_step.
  destruct (rev a0); sim_step.
Qed.

Lemma sim_click selector : sim (click w selector) (click w' selector).
Proof. unfold click. sim_step; [apply sim_last_page|]. repeat sim_step. Qed.

Lemma sim_fill selector text : sim (fill w selector text) (fill w' selector text).
Proof. unfold fill. sim_step; [apply sim_last_page|]. repeat sim_step. Qed.

Lemma sim_scroll_down : sim (scroll_down w) (scroll_down w').
Proof. unfold scroll_down, window_innerHeight. repeat sim_step. Qed.

Lemma sim_before_stop sc : Forall2 sim (before_stop w sc) (before_stop w' sc).
Proof.
  destruct sc; simpl;
    repeat (apply Forall2_cons; [first [apply sim_click | apply sim_fill]|]);
    apply Forall2_nil.
Qed.

Lemma sim_stop sc : sim (stop w sc) (stop w' sc).
Proof.
  destruct sc; simpl; try apply sim_scroll_down.
  unfold assert_false, assert_. apply sim_raise.
Qed.

Lemma sim_teardown : sim (teardown w) (teardown w').
Proof.
  unfold teardown.
  repeat (apply sim_bind; [|intro]);
    (apply sim_when_set; [same_var|intro; apply sim_perform; reflexivity]).
Qed.

End SoftRuns.

(** The [try] suite runs up to its first statement that always raises. *)
Lemma body_cut w sc st :
  body w sc st
  = run_steps (prologue w ++ before_stop w sc ++ [stop w sc]) st.
Proof.
  unfold body, body_steps. rewrite !run_steps_app. unfold bind.
  destruct (run_steps (prologue w) st) as [[e|[]] st1]; [reflexivity|].
  rewrite scenario_split, (run_steps_cut _ _ (stop_always_raises w sc)).
  rewrite run_steps_app. reflexivity.
Qed.

Lemma sim_run_test w sc : sim (run_test w sc) (run_test (waits_succeed w) sc).
Proof.
  intros st st' H. unfold run_test, try_finally. rewrite !body_cut.
  apply (sim_try_finally
           (m := run_steps (prologue w ++ before_stop w sc ++ [stop w sc]))
           (m' := run_steps (prologue (waits_succeed w)
                               ++ before_stop (waits_succeed w) sc
                               ++ [stop (waits_succeed w) sc]))
           (fin := teardown w) (fin' := teardown (waits_succeed w))); auto.
  - apply sim_run_steps.
    apply Forall2_app; [apply sim_prologue|].
    apply Forall2_app; [apply sim_before_stop|].
    apply Forall2_cons; [apply sim_stop|apply Forall2_nil].
  - apply sim_teardown.
Qed.

(** C4.  Take any world and make all its load-state waits succeed:
    each script raises the same exception, and its interactions are the
    same, answer for answer, except for the answers to those waits.  So a
    wait that times out or fails changes nothing in what follows. *)
Theorem soft_wait_failure_changes_nothing w sc :
  outcome (waits_succeed w) sc = outcome w sc
  /\ final_trace (waits_succeed w) sc = map wait_succeeded (final_trace w sc).
Proof.
  destruct (sim_run_test w sc (st:=init) (st':=init)) as (Ho & Ht & _).
  - repeat split.
  - split; assumption.
Qed.

Example timed_out_waits_TC007 :
  outcome waits_time_out TC007 = outcome happy_world TC007
  /\ outcome waits_time_out TC004 = outcome happy_world TC004.
Proof. split; vm_compute; reflexivity. Qed.

(** ** Navigation and frame discovery *)










(** The later [goto] statements of TC012, were they reached, would
    navigate twice in a row with no frame discovery in between. *)
Remark later_gotos_skip_discovery :
  let st := snd (run_steps (prologue happy_world) init) in
  trace (snd (run_steps (firstn 2 (tl (steps_TC012 happy_world))) st))
  = trace st
      ++ [EvCall (Goto 4%nat "http://localhost:5175/login" None 10000) (inr tt);
          EvCall (Goto 4%nat "http://localhost:5175/home" None 10000) (inr tt)].
Proof. vm_compute. reflexivity. Qed.

(** ** The unbound name [window] *)


Lemma never_passes w sc : passed (outcome w sc) = false.
Proof.
  destruct (run_cases w sc)
    as (acq & nav & scn & e & st1 & td & res & _ & _ & Hrun & _).
  unfold outcome. rewrite Hrun. destruct res; reflexivity.
Qed.



(** ** The generic failing assertion *)




Remark assert_unreachable_in_TC005_TC012 w sc st :
  sc = TC005 \/ sc = TC012 ->
  run_steps (steps_before_assert w sc) init <> (inr tt, st).
Proof.
  intros Hsc H.
  assert (E : exists rest,
             steps_before_assert w sc = prologue w ++ scroll_down w :: rest)
    by (destruct Hsc as [-> | ->]; eexists; reflexivity).
  destruct E as (rest & E). rewrite E in H.
  rewrite (run_steps_cut _ _ (scroll_down_always_raises w)) in H.
  destruct (run_steps_never_returns (prologue w) (scroll_down_always_raises w) init)
    as (e & st' & R).
  rewrite R in H. discriminate.
Qed.

(** ** Reading a price *)




Example price_texts :
  map (fun s => fst (price_of_text s init))
    ["$80"; "1,234,567.5"; "$ 99.90 "; "1.234,00"; "1e3"; "NaN"; "$inf";
     "$abc"; "N/A"; ""; "USD 100"]
  = [inr (Py.float_of_Z 80);
     inr (Py.float_of_ratio false 12345675 10);
     inr (Py.float_of_ratio false 999 10);
     inr (Py.float_of_ratio false 1234 1000);
     inr (Py.float_of_Z 1000);
     inr Py.FNan;
     inr (Py.FInf false);
     inl (Exn ValueError "could not convert string to float: 'abc'" None);
     inl (Exn ValueError "could not convert string to float: 'N/A'" None);
     inl (Exn ValueError "could not convert string to float: ''" None);
     inl (Exn ValueError "could not convert string to float: 'USD 100'" None)].
Proof. vm_compute. reflexivity. Qed.

(** ** The listing assertions on a page *)

(** On the page whose second card has no price the run of TC004 raises
    the NameError of the scroll statement; and the listing assertions,
    taken by themselves, raise on that page the very message they raise
    when it is the first card that lacks its title. *)
Lemma missing_price_reported_generically :
  outcome (fixture_world second_card_unpriced) TC004 = inl name_error_window
  /\ listing_failure second_card_unpriced
     = inl (Exn AssertionError "Key villa information missing" None)
  /\ ~ tells_apart second_card_unpriced first_card_untitled.
Proof.
  split; [vm_compute; reflexivity|]. split; [vm_compute; reflexivity|].
  intros H.
  apply (H (Exn AssertionError "Key villa information missing" None)
           (Exn AssertionError "Key villa information missing" None));
    vm_compute; reflexivity.
Qed.

(** C8, as the script has it.  On a page of three cards where the first
    is complete and the second shows its media but has no price element,
    the listing assertions inspect the first two cards and raise
    AssertionError('Key villa information missing'), a fixed text that
    names neither the card nor the element; whatever statements follow
    them do not run.  A run of TC004 on that page does not pass. *)
Theorem listing_fails_at_unpriced_card c1 c2 c3 :
  complete c1 = true ->
  c_multimedia c2 = true ->
  c_price c2 = None ->
  let w := fixture_world [c1; c2; c3] in
  (exists st,
      listing_assertions w (after_prologue w)
      = (inl (Exn AssertionError "Key villa information missing" None), st)
      /\ cards_inspected (skipn (List.length (trace (after_prologue w))) (trace st))
         = [[0]; [0]; [0]; [0]; [1]; [1]; [1]; [1]]%nat
      /\ forall rest,
           run_steps (listing_assertions w :: rest) (after_prologue w)
           = (inl (Exn AssertionError "Key villa information missing" None), st))
  /\ passed (outcome w TC004) = false.
Proof.
  destruct c1 as [[] [] [p1|] [l1|] a1]; try discriminate.
  destruct c2 as [m2 t2 p2 l2 a2]. simpl. intros _ -> ->.
  split; [|first [apply never_passes | reflexivity]].
  destruct t2, l2 as [l2|]; eexists; (split; [vm_compute; reflexivity|]);
    (split; [vm_compute; reflexivity|]);
    intros rest; simpl; apply bind_raise; vm_compute; reflexivity.
Qed.

Lemma listing_fails_at_unpriced_card_witness :
  listing_failure second_card_unpriced
  = inl (Exn AssertionError "Key villa information missing" None)
  /\ passed (outcome (fixture_world second_card_unpriced) TC004) = false.
Proof.
  destruct (@listing_fails_at_unpriced_card
              (villa "$120" "Malibu") (without_price (villa "$150" "Malibu"))
              (villa "$300" "Malibu"))
    as ((st & H & _) & Hp); try reflexivity.
  split; [|exact Hp].
  unfold listing_failure, second_card_unpriced. rewrite H. reflexivity.
Defined.

(** ** The price step on a page *)


Section PriceStep.

Variable texts : list string.

Let w := fixture_world (priced_page texts).




End PriceStep.




(** * Further properties of the scripts *)

(** ** Failures while the session is being set up (lines 11-32) *)

Ltac close_run Hbody :=
  unfold final_trace, outcome, run, run_test, try_finally;
  rewrite Hbody;
  unfold teardown, when_set, bind, perform, ret; cbn.

Lemma body_of_failed_acquisition w sc e st :
  run_steps (acquire_steps w) init = (inl e, st) ->
  body w sc init = (inl e, st).
Proof.
  intros H. unfold body, body_steps, prologue. rewrite <- app_assoc.
  apply run_steps_prefix_raises. exact H.
Qed.

(** X1.  When [async_playwright().start()] fails, nothing was acquired: the
    [finally] suite makes no call at all and the run raises that error. *)
Theorem start_failure_closes_nothing w sc err :
  respond w 0 PlaywrightStart = inl err ->
  final_trace w sc = [EvCall PlaywrightStart (inl err)]
  /\ outcome w sc = inl (exn_of_pw err).
Proof.
  intros H0.
  assert (Hb : body w sc init
               = (inl (exn_of_pw err),
                  extend init [EvCall PlaywrightStart (inl err)])).
  { apply body_of_failed_acquisition.
    unfold acquire_steps, run_steps, start_playwright, bind, perform. cbn.
    rewrite H0. reflexivity. }
  close_run Hb. auto.
Qed.

Lemma start_failure_closes_nothing_witness :
  final_trace
    (world_failing
       (fun A c => match c with PlaywrightStart => Some driver_gone | _ => None end))
    TC007
  = [EvCall PlaywrightStart (inl driver_gone)].
Proof.
  apply (@start_failure_closes_nothing
           (world_failing
              (fun A c => match c with PlaywrightStart => Some driver_gone | _ => None end))
           TC007 driver_gone).
  reflexivity.
Defined.

(** X2.  When [chromium.launch] fails, only the engine is held: the [finally]
    suite stops it and makes no other call. *)
Theorem launch_failure_stops_engine_only w sc p err :
  respond w 0 PlaywrightStart = inr p ->
  respond w 1 (ChromiumLaunch p true launch_args) = inl err ->
  final_trace w sc
  = [EvCall PlaywrightStart (inr p);
     EvCall (ChromiumLaunch p true launch_args) (inl err);
     EvCall (PlaywrightStop p) (respond w 2 (PlaywrightStop p))]
  /\ outcome w sc
     = match respond w 2 (PlaywrightStop p) with
       | inr _ => inl (exn_of_pw err)
       | inl err' => inl (with_context (Some (exn_of_pw err)) (exn_of_pw err'))
       end.
Proof.
  intros H0 H1.
  assert (Hb : body w sc init
               = (inl (exn_of_pw err),
                  {| trace := [EvCall PlaywrightStart (inr p);
                               EvCall (ChromiumLaunch p true launch_args) (inl err)];
                     pw := Some p; browser_ := None; context_ := None;
                     page_ := None |})).
  { apply body_of_failed_acquisition.
    unfold acquire_steps, run_steps, start_playwright, launch_browser, bind,
      perform, load, store_pw. cbn.
    rewrite H0. cbn. rewrite H1. reflexivity. }
  close_run Hb. destruct (respond w 2 (PlaywrightStop p)) as [err'|[]]; auto.
Qed.

Lemma launch_failure_stops_engine_only_witness :
  releases
    (final_trace
       (world_failing
          (fun A c => match c with ChromiumLaunch _ _ _ => Some driver_gone | _ => None end))
       TC004)
  = [REngine 1%nat].
Proof.
  destruct (@launch_failure_stops_engine_only
              (world_failing
                 (fun A c => match c with ChromiumLaunch _ _ _ => Some driver_gone | _ => None end))
              TC004 1%nat driver_gone) as (Ht & _).
  - reflexivity.
  - reflexivity.
  - rewrite Ht. reflexivity.
Defined.

(** X3.  When [browser.new_context()] fails, the browser is closed and then
    the engine is stopped; [context.close()] is not called.  If closing the
    browser raises, the engine is not stopped. *)
Theorem context_failure_closes_browser_then_engine w sc p b err :
  respond w 0 PlaywrightStart = inr p ->
  respond w 1 (ChromiumLaunch p true launch_args) = inr b ->
  respond w 2 (NewContext b) = inl err ->
  let setup := [EvCall PlaywrightStart (inr p);
                EvCall (ChromiumLaunch p true launch_args) (inr b);
                EvCall (NewContext b) (inl err)] in
  match respond w 3 (BrowserClose b) with
  | inl err' =>
      final_trace w sc = setup ++ [EvCall (BrowserClose b) (inl err')]
      /\ outcome w sc = inl (with_context (Some (exn_of_pw err)) (exn_of_pw err'))
  | inr _ =>
      final_trace w sc
      = setup ++ [EvCall (BrowserClose b) (inr tt);
                  EvCall (PlaywrightStop p) (respond w 4 (PlaywrightStop p))]
      /\ outcome w sc
         = match respond w 4 (PlaywrightStop p) with
           | inr _ => inl (exn_of_pw err)
           | inl err' => inl (with_context (Some (exn_of_pw err)) (exn_of_pw err'))
           end
  end.
Proof.
  intros H0 H1 H2 setup.
  assert (Hb : body w sc init
               = (inl (exn_of_pw err),
                  {| trace := setup; pw := Some p; browser_ := Some b;
                     context_ := None; page_ := None |})).
  { apply body_of_failed_acquisition.
    unfold acquire_steps, run_steps, start_playwright, launch_browser,
      new_context, bind, perform, load, store_pw, store_browser. cbn.
    rewrite H0. cbn. rewrite H1. cbn. rewrite H2. reflexivity. }
  destruct (respond w 3 (BrowserClose b)) as [err'|[]] eqn:H3.
  - close_run Hb. rewrite H3. cbn. auto.
  - close_run Hb. rewrite H3. cbn.
    destruct (respond w 4 (PlaywrightStop p)) as [err'|[]]; auto.
Qed.

Lemma context_failure_closes_browser_then_engine_witness :
  releases
    (final_trace
       (world_failing
          (fun A c => match c with NewContext _ => Some driver_gone | _ => None end))
       TC012)
  = [RBrowser 2%nat; REngine 1%nat].
Proof.
  pose proof (@context_failure_closes_browser_then_engine
                (world_failing
                   (fun A c => match c with NewContext _ => Some driver_gone | _ => None end))
                TC012 1%nat 2%nat driver_gone eq_refl eq_refl eq_refl) as H.
  cbv zeta in H. simpl respond in H. destruct H as (Ht & _).
  rewrite Ht. reflexivity.
Defined.

(** X4.  When the first [page.goto] fails, the run stops there: no
    load-state wait, no frame enumeration and no statement of the scenario
    follows, only the closing calls; if these succeed, all three resources
    are closed and the run raises the navigation error. *)
Theorem navigation_failure_ends_run w sc p b c pg err :
  respond w 0 PlaywrightStart = inr p ->
  respond w 1 (ChromiumLaunch p true launch_args) = inr b ->
  respond w 2 (NewContext b) = inr c ->
  respond w 4 (NewPage c) = inr pg ->
  respond w 5 (Goto pg home (Some "commit") 10000) = inl err ->
  exists td,
    final_trace w sc
    = [EvCall PlaywrightStart (inr p);
       EvCall (ChromiumLaunch p true launch_args) (inr b);
       EvCall (NewContext b) (inr c);
       EvSetDefaultTimeout c 5000;
       EvCall (NewPage c) (inr pg);
       EvCall (Goto pg home (Some "commit") 10000) (inl err)] ++ td
    /\ forallb is_release td = true
    /\ (all_succeeded td = true ->
        releases td = [RContext c; RBrowser b; REngine p]
        /\ outcome w sc = inl (exn_of_pw err)).
Proof.
  intros H0 H1 H2 H4 H5.
  set (st1 := {| trace := [EvCall PlaywrightStart (inr p);
                           EvCall (ChromiumLaunch p true launch_args) (inr b);
                           EvCall (NewContext b) (inr c);
                           EvSetDefaultTimeout c 5000;
                           EvCall (NewPage c) (inr pg);
                           EvCall (Goto pg home (Some "commit") 10000) (inl err)];
                 pw := Some p; browser_ := Some b; context_ := Some c;
                 page_ := Some pg |}).
  assert (Hb : body w sc init = (inl (exn_of_pw err), st1)).
  { unfold body, body_steps. apply run_steps_prefix_raises.
    unfold prologue, acquire_steps, navigate_steps, run_steps, start_playwright,
      launch_browser, new_context, set_default_timeout, new_page, goto_home,
      bind, perform, load, load_page, emit, store_pw, store_browser,
      store_context, store_page. cbn.
    rewrite H0. cbn. rewrite H1. cbn. rewrite H2. cbn. rewrite H4. cbn.
    fold home. rewrite H5. reflexivity. }
  destruct (teardown_cases w st1) as (td & res & Htd & Hrel & _ & Hres).
  exists td. unfold final_trace, outcome, run, run_test, try_finally.
  rewrite Hb, Htd. split; [destruct res as [e'|[]]; reflexivity|].
  split; [exact Hrel|]. intros Hok.
  destruct res as [e'|[]].
  - destruct Hres as (td0 & A & c0 & err0 & -> & _ & _).
    unfold all_succeeded in Hok. rewrite forallb_app in Hok. simpl in Hok.
    rewrite andb_false_r in Hok. discriminate.
  - destruct Hres as (_ & ->). split; reflexivity.
Qed.

Lemma navigation_failure_ends_run_witness :
  final_trace goto_and_browser_close_fail TC005
  = [EvCall PlaywrightStart (inr 1%nat);
     EvCall (ChromiumLaunch 1%nat true launch_args) (inr 2%nat);
     EvCall (NewContext 2%nat) (inr 3%nat);
     EvSetDefaultTimeout 3%nat 5000;
     EvCall (NewPage 3%nat) (inr 4%nat);
     EvCall (Goto 4%nat home (Some "commit") 10000)
       (inl (PwTimeoutError "Page.goto: Timeout 10000ms exceeded."));
     EvCall (ContextClose 3%nat) (inr tt);
     EvCall (BrowserClose 2%nat) (inl driver_gone)].
Proof.
  destruct (@navigation_failure_ends_run goto_and_browser_close_fail TC005
              1%nat 2%nat 3%nat 4%nat
              (PwTimeoutError "Page.goto: Timeout 10000ms exceeded.")
              eq_refl eq_refl eq_refl eq_refl eq_refl) as (td & Ht & _).
  rewrite Ht. vm_compute in Ht. injection Ht as <-. reflexivity.
Defined.

(** ** What no run does *)

(** X5.  None of the four scripts can pass: in every world [run_test] raises.
    The exception is the one that left the [try] suite or, when a closing
    call failed, an engine error that has it as context. *)
Theorem no_script_can_pass w sc :
  exists e st1,
    body w sc init = (inl e, st1)
    /\ (outcome w sc = inl e
        \/ exists e', outcome w sc = inl e'
                      /\ is_playwright_error e' = true
                      /\ exn_context e' = Some e).
Proof.
  destruct (run_cases w sc)
    as (acq & nav & scn & e & st1 & td & res & Hb & Htd & Hrun & _).
  destruct (teardown_cases w st1) as (td' & res' & Htd' & _ & _ & Hres).
  rewrite Htd in Htd'. injection Htd' as <- _.
  exists e, st1. split; [exact Hb|].
  unfold outcome. rewrite Hrun. simpl. destruct res as [e'|[]]; [|auto].
  right. destruct Hres as (_ & _ & _ & err & _ & -> & _).
  eexists. split; [reflexivity|]. destruct err; auto.
Qed.

(** X6.  In TC004, TC005 and TC012 nothing after the scroll statement ever
    runs: every run consists of the session setup, the first navigation if
    the setup succeeded, with its frame discovery if it was committed, and
    the closing calls.  No click, no fill and no second navigation takes
    place. *)
Theorem statements_after_scroll_never_run w sc :
  sc <> TC007 ->
  exists acq nav td,
    final_trace w sc = acq ++ nav ++ td
    /\ forallb is_setup acq = true
    /\ nav_shape nav
    /\ forallb is_release td = true
    /\ forallb (fun e => negb (is_interaction e)) (final_trace w sc) = true.
Proof.
  intros Hsc.
  destruct (run_cases w sc)
    as (acq & nav & scn & e & st1 & td & res & _ & Htd & Hrun & Ht & Hs & Hn
        & _ & _ & _ & _ & H7).
  destruct (teardown_cases w st1) as (td' & res' & Htd' & Hrel & _).
  rewrite Htd in Htd'. injection Htd' as <- Hext.
  apply app_inv_head in Hext. subst td'.
  destruct (H7 Hsc) as (-> & _). rewrite app_nil_r in Ht.
  assert (Hfinal : final_trace w sc = acq ++ nav ++ td).
  { unfold final_trace. rewrite Hrun. simpl. rewrite Ht, app_assoc.
    reflexivity. }
  exists acq, nav, td. repeat split; auto.
  rewrite Hfinal, !forallb_app.
  pose proof (nav_shape_events Hn) as Hne.
  assert (Hcase : forall (Q : event -> bool),
             (forall x, Q x = true -> is_interaction x = false) ->
             forall l, forallb Q l = true ->
                       forallb (fun e => negb (is_interaction e)) l = true).
  { intros Q HQ l. apply forallb_impl. intros x Hx. rewrite (HQ x Hx).
    reflexivity. }
  repeat (apply andb_true_intro; split).
  - apply (Hcase is_setup); [|exact Hs].
    intros [A c r|A q r| |] Hx; simpl in *; try discriminate; try reflexivity;
      destruct c; simpl in *; try discriminate; reflexivity.
  - apply (Hcase is_nav_event); [|exact Hne].
    intros [A c r|A q r| |] Hx; simpl in *; try discriminate; try reflexivity;
      first [destruct c | destruct q]; simpl in *; try discriminate;
      reflexivity.
  - apply (Hcase is_release); [|exact Hrel].
    intros [A c r|A q r| |] Hx; simpl in *; try discriminate; try reflexivity;
      destruct c; simpl in *; try discriminate; reflexivity.
Qed.

Lemma statements_after_scroll_never_run_witness :
  forallb (fun e => negb (is_interaction e)) (final_trace happy_world TC005)
  = true.
Proof.
  destruct (@statements_after_scroll_never_run happy_world TC005)
    as (acq & nav & td & _ & _ & _ & _ & H).
  - discriminate.
  - exact H.
Defined.

(** ** The click and fill statements (TC005, TC007, TC012) *)

Lemma length_log e st :
  List.length (trace (log e st)) = S (List.length (trace st)).
Proof. unfold log; simpl. rewrite length_app. simpl. apply Nat.add_1_r. Qed.

(** X7.  A click statement first takes the last page of [context.pages].  If
    there is none it raises IndexError without calling the engine.
    Otherwise it pauses 3000 ms on [page], the page the script opened, and
    only if the pause succeeds clicks, with a 5000 ms timeout, on the
    first match of the selector in that last page, which need not be
    [page]. *)
Theorem click_acts_on_last_page w selector st c p :
  context_ st = Some c ->
  page_ st = Some p ->
  let k := List.length (trace st) in
  let pages := observe w k (ContextPages c) in
  let seen := EvQuery (ContextPages c) pages in
  match rev pages with
  | [] => click w selector st = (inl index_error, extend st [seen])
  | q :: _ =>
      let pause := respond w (S k) (WaitForTimeout p 3000) in
      match pause with
      | inl err =>
          click w selector st
          = (inl (exn_of_pw err),
             extend st [seen; EvCall (WaitForTimeout p 3000) pause])
      | inr _ =>
          let r := respond w (S (S k)) (LocatorClick q selector 0 5000) in
          click w selector st
          = (match r with inl err => inl (exn_of_pw err) | inr _ => inr tt end,
             extend st [seen; EvCall (WaitForTimeout p 3000) pause;
                        EvCall (LocatorClick q selector 0 5000) r])
      end
  end.
Proof.
  intros Hc Hp k pages seen.
  unfold click, last_page, bind, load, read, load_page. rewrite Hc.
  fold k. fold pages. fold seen.
  destruct (rev pages) as [|q rest]; [reflexivity|].
  unfold ret. simpl page_. rewrite Hp. unfold perform.
  rewrite !length_log. fold k.
  destruct (respond w (S k) (WaitForTimeout p 3000)) as [err|[]] eqn:Hw;
    cbv zeta.
  - rewrite !log_extend, extend_extend. reflexivity.
  - rewrite !log_extend, !extend_extend. simpl app.
    destruct (respond w (S (S k)) (LocatorClick q selector 0 5000)) as [e|[]];
      reflexivity.
Qed.

Lemma click_acts_on_last_page_witness :
  click (world_failing (fun A c => None)) "a"
    (snd (run_steps (prologue (world_failing (fun A c => None))) init))
  = (inr tt,
     extend (snd (run_steps (prologue (world_failing (fun A c => None))) init))
       [EvQuery (ContextPages 3%nat) [4%nat];
        EvCall (WaitForTimeout 4%nat 3000) (inr tt);
        EvCall (LocatorClick 4%nat "a" 0 5000) (inr tt)]).
Proof.
  exact (@click_acts_on_last_page (world_failing (fun A c => None)) "a"
           (snd (run_steps (prologue (world_failing (fun A c => None))) init))
           3%nat 4%nat eq_refl eq_refl).
Defined.

(** X8.  A fill statement first takes the last page of [context.pages].
    If there is none it raises IndexError without calling the engine.
    Otherwise it pauses 3000 ms on [page] and, only if the pause succeeds,
    calls [fill(text)] on the first match of the selector in that last
    page, under the default timeout of the context. *)
Theorem fill_acts_on_last_page w selector text st c p :
  context_ st = Some c ->
  page_ st = Some p ->
  let k := List.length (trace st) in
  let pages := observe w k (ContextPages c) in
  let seen := EvQuery (ContextPages c) pages in
  match rev pages with
  | [] => fill w selector text st = (inl index_error, extend st [seen])
  | q :: _ =>
      let pause := respond w (S k) (WaitForTimeout p 3000) in
      match pause with
      | inl err =>
          fill w selector text st
          = (inl (exn_of_pw err),
             extend st [seen; EvCall (WaitForTimeout p 3000) pause])
      | inr _ =>
          let r := respond w (S (S k)) (LocatorFill q selector 0 text) in
          fill w selector text st
          = (match r with inl err => inl (exn_of_pw err) | inr _ => inr tt end,
             extend st [seen; EvCall (WaitForTimeout p 3000) pause;
                        EvCall (LocatorFill q selector 0 text) r])
      end
  end.
Proof.
  intros Hc Hp k pages seen.
  unfold fill, last_page, bind, load, read, load_page. rewrite Hc.
  fold k. fold pages. fold seen.
  destruct (rev pages) as [|q rest]; [reflexivity|].
  unfold ret. simpl page_. rewrite Hp. unfold perform.
  rewrite !length_log. fold k.
  destruct (respond w (S k) (WaitForTimeout p 3000)) as [err|[]] eqn:Hw;
    cbv zeta.
  - rewrite !log_extend, extend_extend. reflexivity.
  - rewrite !log_extend, !extend_extend. simpl app.
    destruct (respond w (S (S k)) (LocatorFill q selector 0 text)) as [e|[]];
      reflexivity.
Qed.

Lemma fill_acts_on_last_page_witness :
  fill (world_failing (fun A c => None)) "input" "Malibu"
    (snd (run_steps (prologue (world_failing (fun A c => None))) init))
  = (inr tt,
     extend (snd (run_steps (prologue (world_failing (fun A c => None))) init))
       [EvQuery (ContextPages 3%nat) [4%nat];
        EvCall (WaitForTimeout 4%nat 3000) (inr tt);
        EvCall (LocatorFill 4%nat "input" 0 "Malibu") (inr tt)]).
Proof.
  exact (@fill_acts_on_last_page (world_failing (fun A c => None)) "input"
           "Malibu"
           (snd (run_steps (prologue (world_failing (fun A c => None))) init))
           3%nat 4%nat eq_refl eq_refl).
Defined.

(** ** How TC007 can fail *)

Lemma prologue_ready w st :
  run_steps (prologue w) init = (inr tt, st) -> session_ready st.
Proof.
  unfold prologue. rewrite run_steps_app. unfold bind.
  destruct (run_steps (acquire_steps w) init) as [[e|[]] st0] eqn:R;
    [discriminate|].
  assert (H0 : session_ready st0).
  { revert R.
    unfold acquire_steps, run_steps, start_playwright, launch_browser,
      new_context, set_default_timeout, new_page, bind, perform, load, emit,
      store_pw, store_browser, store_context, store_page, ret, init, log.
    cbn. repeat answer w; intros R; try discriminate.
    injection R as <-. split; eexists; reflexivity. }
  destruct H0 as ((c & Hc) & (p & Hp)).
  destruct (navigate_cases w st0 Hp) as (nav & res & Hn & _).
  rewrite Hn. intros H. injection H as _ <-.
  split; eexists; eassumption.
Qed.

Lemma session_ready_same_locals st st' :
  same_locals st st' -> session_ready st -> session_ready st'.
Proof.
  intros (_ & _ & Hc & Hp) ((c & Ec) & (p & Ep)).
  split; eexists; [rewrite Hc | rewrite Hp]; eassumption.
Qed.

Lemma click_fails_as_interaction w selector :
  fails_as_interaction (click w selector).
Proof.
  intros st e st' ((c & Hc) & (p & Hp)).
  unfold click, last_page, bind, load, read, load_page, perform. rewrite Hc.
  destruct (rev _) as [|q rest].
  - intros H. injection H as <- _. right. reflexivity.
  - unfold ret. simpl page_. rewrite Hp.
    destruct (respond w _ (WaitForTimeout p 3000)) as [err|[]].
    + intros H. injection H as <- _. left. apply exn_of_pw_is_playwright.
    + destruct (respond w _ (LocatorClick q selector 0 5000)) as [err|[]];
        intros H; [|discriminate].
      injection H as <- _. left. apply exn_of_pw_is_playwright.
Qed.

Lemma fill_fails_as_interaction w selector text :
  fails_as_interaction (fill w selector text).
Proof.
  intros st e st' ((c & Hc) & (p & Hp)).
  unfold fill, last_page, bind, load, read, load_page, perform. rewrite Hc.
  destruct (rev _) as [|q rest].
  - intros H. injection H as <- _. right. reflexivity.
  - unfold ret. simpl page_. rewrite Hp.
    destruct (respond w _ (WaitForTimeout p 3000)) as [err|[]].
    + intros H. injection H as <- _. left. apply exn_of_pw_is_playwright.
    + destruct (respond w _ (LocatorFill q selector 0 text)) as [err|[]];
        intros H; [|discriminate].
      injection H as <- _. left. apply exn_of_pw_is_playwright.
Qed.

Lemma run_steps_fail_as_interaction steps :
  Forall (fun s => quiet is_interaction s /\ fails_as_interaction s) steps ->
  fails_as_interaction (run_steps steps).
Proof.
  induction 1 as [|s steps (Hq & Hf) _ IH]; simpl.
  - intros st e st' _ H. discriminate.
  - intros st e st' Hready. unfold bind.
    destruct (Hq st) as (l & _ & _ & Hl).
    destruct (s st) as [[e0|[]] st1] eqn:E.
    + intros H. injection H as <- _. eapply Hf; eassumption.
    + apply IH. eapply session_ready_same_locals; eassumption.
Qed.

Lemma interactions_TC007_fail_as_interaction w :
  fails_as_interaction (run_steps (before_stop w TC007)).
Proof.
  apply run_steps_fail_as_interaction. simpl.
  repeat (apply Forall_cons;
          [split; first [apply quiet_click | apply quiet_fill
                        | apply click_fails_as_interaction
                        | apply fill_fails_as_interaction]|]).
  apply Forall_nil.
Qed.

(** X9.  The [try] suite of TC007 is left by an engine error, by the
    IndexError of an empty [context.pages], or by the generic assertion;
    and by the generic assertion exactly when every statement before it
    succeeded. *)
Theorem booking_failure_kinds w :
  exists e st,
    body w TC007 init = (inl e, st)
    /\ (is_playwright_error e = true \/ e = index_error
        \/ e = generic_assertion_error)
    /\ (e = generic_assertion_error
        <-> run_steps (steps_before_assert w TC007) init = (inr tt, st)).
Proof.
  assert (Hbody :
    body w TC007 init
    = match run_steps (prologue w) init with
      | (inl e, s) => (inl e, s)
      | (inr _, s) =>
          match run_steps (before_stop w TC007) s with
          | (inl e, s') => (inl e, s')
          | (inr _, s') => (inl generic_assertion_error, s')
          end
      end).
  { unfold body.
    change (body_steps w TC007)
      with (prologue w ++ before_stop w TC007 ++ [assert_false; sleep5]).
    rewrite run_steps_app. unfold bind.
    destruct (run_steps (prologue w) init) as [[e|[]] s]; [reflexivity|].
    rewrite run_steps_app. unfold bind.
    destruct (run_steps (before_stop w TC007) s) as [[e|[]] s'];
      reflexivity. }
  assert (Hpre :
    run_steps (steps_before_assert w TC007) init
    = match run_steps (prologue w) init with
      | (inl e, s) => (inl e, s)
      | (inr _, s) => run_steps (before_stop w TC007) s
      end).
  { change (steps_before_assert w TC007)
      with (prologue w ++ before_stop w TC007).
    rewrite run_steps_app. unfold bind.
    destruct (run_steps (prologue w) init) as [[e|[]] s]; reflexivity. }
  rewrite Hbody, Hpre. clear Hbody Hpre.
  destruct (prologue_cases w)
    as (acq & nav & res & st0 & R & _ & _ & _ & _ & _ & Hres).
  rewrite R. destruct res as [e0|[]].
  - exists e0, st0. split; [reflexivity|]. split; [auto|].
    split; [|discriminate].
    intros ->. discriminate.
  - pose proof (prologue_ready w R) as Hready.
    destruct (run_steps (before_stop w TC007) st0) as [[e1|[]] st1] eqn:R1.
    + pose proof (interactions_TC007_fail_as_interaction w Hready R1) as Hk.
      exists e1, st1. split; [reflexivity|]. split; [destruct Hk; auto|].
      split; [|discriminate].
      intros ->. destruct Hk as [Hk|Hk]; discriminate.
    + exists generic_assertion_error, st1. repeat split; auto.
Qed.

(** ** The assertion groups of TC004 on any page *)

Lemma groups_of_TC004 w :
  listing_assertions w
  = assertion_group w "No villas found on the listing page" (check_card w)
  /\ location_assertions w
     = assertion_group w "No villas found after applying location filter"
         (check_location w)
  /\ price_assertions w
     = assertion_group w "No villas found after applying price filter"
         (check_price w)
  /\ amenities_assertions w
     = assertion_group w "No villas found after applying amenities filter"
         (check_amenities w).
Proof. repeat split. Qed.

Lemma first_failure_ok {A} (check : A -> exn + unit) (ok : A -> bool) xs :
  (forall x, check x = inr tt <-> ok x = true) ->
  (first_failure check xs = inr tt <-> forallb ok xs = true).
Proof.
  intros H. induction xs as [|x xs IH]; simpl; [tauto|].
  destruct (check x) as [e|[]] eqn:E.
  - assert (ok x = false) as ->.
    { destruct (ok x) eqn:O; [|reflexivity].
      apply H in O. congruence. }
    simpl. split; discriminate.
  - assert (ok x = true) as -> by (apply H; exact E). simpl. exact IH.
Qed.

Lemma page_verdict_ok msg (check : card -> exn + unit) (ok : card -> bool) cards :
  (forall c, check c = inr tt <-> ok c = true) ->
  (page_verdict msg check cards = inr tt
   <-> cards <> [] /\ forallb ok cards = true).
Proof.
  intros H. destruct cards as [|c cards].
  - simpl. split; [discriminate|intros (F & _); congruence].
  - unfold page_verdict. rewrite (first_failure_ok check ok (c :: cards) H).
    split; [intros F; split; [discriminate|exact F]|tauto].
Qed.

Section FixturePage.

Variable cards : list card.
Variable check : elem -> M unit.
Variable verdict : card -> exn + unit.

Hypothesis check_card_verdict :
  forall i c st,
    nth_error cards i = Some c ->
    exists l, check [i] st = (verdict c, extend st l).

Lemma foreach_on_fixture cs :
  forall k st,
    (forall j, (j < List.length cs)%nat ->
               nth_error cards (k + j) = nth_error cs j) ->
    exists l,
      foreach (@map nat elem (fun i => [i]) (seq k (List.length cs))) check st
      = (first_failure verdict cs, extend st l).
Proof.
  induction cs as [|c cs IH]; intros k st Hnth.
  - exists []. rewrite extend_nil. reflexivity.
  - simpl. unfold bind.
    assert (Hk : nth_error cards k = Some c).
    { specialize (Hnth 0%nat). rewrite Nat.add_0_r in Hnth.
      apply Hnth. simpl. lia. }
    destruct (check_card_verdict k st Hk) as (l1 & E1). rewrite E1.
    destruct (verdict c) as [e|[]]; [eauto|].
    destruct (IH (S k) (extend st l1)) as (l2 & E2).
    + intros j Hj. specialize (Hnth (S j)).
      rewrite Nat.add_succ_r in Hnth. apply Hnth. simpl. lia.
    + rewrite E2, extend_extend. eauto.
Qed.

Lemma group_on_fixture msg st p :
  page_ st = Some p ->
  exists l,
    assertion_group (fixture_world cards) msg check st
    = (page_verdict msg verdict cards, extend st l).
Proof.
  intros Hp. unfold assertion_group, bind, load_page, perform. rewrite Hp.
  simpl respond. unfold fixture_answer. simpl String.eqb. cbv iota.
  set (st1 := log _ st).
  rewrite length_map, length_seq.
  destruct (foreach_on_fixture cards 0%nat st1) as (l & E);
    [intros j _; reflexivity|].
  subst st1. rewrite log_extend, extend_extend in E.
  destruct cards as [|c cs] eqn:Hcards.
  - simpl. eexists. rewrite log_extend. reflexivity.
  - eexists. exact E.
Qed.

End FixturePage.

Section ChecksOnFixture.

Variable cards : list card.

Let w := fixture_world cards.


Lemma check_location_on_fixture i c st :
  nth_error cards i = Some c ->
  exists l, check_location w [i] st = (card_location_check c, extend st l).
Proof.
  intros Hc.
  unfold check_location, child_inner_text, card_location_check, bind, perform,
    assert_, ret, raise_.
  simpl respond. unfold fixture_answer, child_of, text_of. rewrite Hc. simpl.
  destruct c as [mm ti pr [lo|] ams]; simpl.
  - rewrite Hc. simpl.
    destruct (Py.contains "Expected Location" lo); eexists;
      rewrite !log_extend, ?extend_extend; reflexivity.
  - eexists. rewrite !log_extend. reflexivity.
Qed.


Lemma skipn_head {A} (l : list A) k a rest d :
  skipn k l = a :: rest -> nth k l d = a /\ skipn (S k) l = rest.
Proof.
  revert l. induction k as [|k IH]; intros [|x l] H; simpl in *;
    try discriminate.
  - injection H as -> ->. auto.
  - apply IH. exact H.
Qed.

Lemma collect_amenities i c :
  nth_error cards i = Some c ->
  forall ams k st,
    skipn k (c_amenities c) = ams ->
    exists l,
      collect (@map nat elem (fun j => [i; 4%nat; j]) (seq k (List.length ams)))
        (fun amenity =>
           h <- perform w (GetProperty amenity "textContent") ;;
           perform w (JsonValue h))%script st
      = (inr ams, extend st l).
Proof.
  intros Hc. induction ams as [|a ams IH]; intros k st Hk.
  - exists []. rewrite extend_nil. reflexivity.
  - destruct (skipn_head _ _ JNull Hk) as (Ha & Hrest).
    simpl. unfold bind at 1 2. unfold perform at 1 2.
    simpl respond. unfold fixture_answer. rewrite Hc, Ha.
    set (st2 := log _ (log _ st)).
    destruct (IH (S k) st2 Hrest) as (l & E).
    unfold bind at 1. rewrite E. unfold ret. subst st2.
    rewrite !log_extend, !extend_extend. eauto.
Qed.

Lemma check_amenities_on_fixture i c st :
  nth_error cards i = Some c ->
  exists l, check_amenities w [i] st = (card_amenities_check c, extend st l).
Proof.
  intros Hc. unfold check_amenities, card_amenities_check.
  unfold bind at 1. unfold perform at 1.
  simpl respond. unfold fixture_answer. simpl String.eqb. cbv iota.
  rewrite Hc. set (st1 := log _ st).
  destruct (@collect_amenities i c Hc (c_amenities c) 0%nat st1 eq_refl) as (l & E).
  unfold bind at 1.
  destruct (collect _ _ st1) as [r st2].
  injection E as -> ->.
  subst st1. unfold assert_.
  destruct (existsb is_pool (c_amenities c)); eexists;
    rewrite log_extend, extend_extend; reflexivity.
Qed.

End ChecksOnFixture.


Lemma card_location_check_ok c :
  card_location_check c = inr tt <-> location_ok c = true.
Proof.
  unfold card_location_check, location_ok.
  destruct (c_location c) as [t|]; [|split; discriminate].
  destruct (Py.contains "Expected Location" t); split; congruence.
Qed.


Lemma card_amenities_check_ok c :
  card_amenities_check c = inr tt <-> has_pool c = true.
Proof.
  unfold card_amenities_check, has_pool.
  destruct (existsb is_pool (c_amenities c)); split; congruence.
Qed.



Lemma prefix_spec p s :
  String.prefix p s = true <-> exists post, s = (p ++ post)%string.
Proof.
  revert s. induction p as [|a p IH]; intros s; simpl.
  - split; [intros _; exists s; reflexivity|intros _; destruct s; reflexivity].
  - destruct s as [|b s].
    + split; [discriminate|intros (post & H); discriminate].
    + cbn [String.prefix]. destruct (ascii_dec a b) as [->|Hab].
      * rewrite IH. split; intros (post & H); exists post; congruence.
      * split; [discriminate|intros (post & H); congruence].
Qed.

(** [needle in hay] holds exactly when [needle] occurs in [hay]. *)
Lemma contains_spec needle hay :
  Py.contains needle hay = true
  <-> exists pre post, hay = (pre ++ needle ++ post)%string.
Proof.
  split.
  - induction hay as [|b hay IH]; cbn [Py.contains].
    + destruct (String.prefix needle "") eqn:E; [|discriminate].
      intros _. apply prefix_spec in E as (post & E).
      exists ""%string, post. exact E.
    + destruct (String.prefix needle (String b hay)) eqn:E.
      * intros _. apply prefix_spec in E as (post & E).
        exists ""%string, post. exact E.
      * intros H. destruct (IH H) as (pre & post & ->).
        exists (String b pre), post. reflexivity.
  - intros (pre & post & ->). induction pre as [|b pre IH].
    + assert (E : String.prefix needle (needle ++ post) = true)
        by (apply prefix_spec; eauto).
      change ("" ++ needle ++ post)%string with (needle ++ post)%string.
      destruct (needle ++ post)%string; cbn [Py.contains]; rewrite E;
        reflexivity.
    + change (String b pre ++ needle ++ post)%string
        with (String b (pre ++ needle ++ post)%string).
      cbn [Py.contains]. rewrite IH.
      destruct (String.prefix needle _); reflexivity.
Qed.

(** X11.  The location assertions (TC004, lines 65-69) on any page: a card
    without a location element raises AttributeError, not an assertion
    failure; a location text in which 'Expected Location' does not occur
    fails with a message quoting that text.  They pass exactly when the
    page shows at least one card and every card has a location text in
    which 'Expected Location' occurs. *)
Theorem location_passes_iff_all_match cards st p :
  page_ st = Some p ->
  (exists l,
      location_assertions (fixture_world cards) st
      = (location_verdict cards, extend st l))
  /\ (location_verdict cards = inr tt
      <-> cards <> [] /\ forallb location_ok cards = true)
  /\ (forall c,
        location_ok c = true
        <-> exists pre post,
              c_location c
              = Some (pre ++ "Expected Location" ++ post)%string).
Proof.
  intros Hp. split; [|split].
  - apply (@group_on_fixture cards (check_location (fixture_world cards))
             card_location_check (@check_location_on_fixture cards) _ st p Hp).
  - apply page_verdict_ok, card_location_check_ok.
  - intros c. unfold location_ok. destruct (c_location c) as [t|].
    + rewrite contains_spec. split; intros (pre & post & H);
        exists pre, post; congruence.
    + split; [discriminate|intros (pre & post & H); discriminate].
Qed.

Lemma location_passes_iff_all_match_witness :
  exists l,
    location_assertions (fixture_world (without_price (villa "" "Malibu") :: nil))
      (after_prologue (fixture_world (without_price (villa "" "Malibu") :: nil)))
    = (inl (Exn AssertionError "Villa location Malibu does not match filter" None),
       extend (after_prologue
                 (fixture_world (without_price (villa "" "Malibu") :: nil))) l).
Proof.
  destruct (@location_passes_iff_all_match
              (without_price (villa "" "Malibu") :: nil)
              (after_prologue
                 (fixture_world (without_price (villa "" "Malibu") :: nil)))
              4%nat eq_refl) as ((l & H) & _).
  exists l. exact H.
Defined.



(** X13.  The amenities assertions (TC004, lines 78-83) on any page: they
    pass exactly when the page shows at least one card and every card has
    an amenity whose text content is exactly 'Pool'; a card with no such
    amenity, or with no amenity at all, fails with 'Villa missing required
    amenity: Pool'. *)
Theorem amenities_pass_iff_all_have_pool cards st p :
  page_ st = Some p ->
  (exists l,
      amenities_assertions (fixture_world cards) st
      = (amenities_verdict cards, extend st l))
  /\ (amenities_verdict cards = inr tt
      <-> cards <> [] /\ forallb has_pool cards = true).
Proof.
  intros Hp. split.
  - apply (@group_on_fixture cards (check_amenities (fixture_world cards))
             card_amenities_check (@check_amenities_on_fixture cards) _ st p Hp).
  - apply page_verdict_ok, card_amenities_check_ok.
Qed.

Lemma amenities_pass_iff_all_have_pool_witness :
  exists l,
    amenities_assertions (fixture_world [villa "$120" "Malibu"])
      (after_prologue (fixture_world [villa "$120" "Malibu"]))
    = (inr tt, extend (after_prologue (fixture_world [villa "$120" "Malibu"])) l).
Proof.
  destruct (@amenities_pass_iff_all_have_pool [villa "$120" "Malibu"]
              (after_prologue (fixture_world [villa "$120" "Malibu"])) 4%nat
              eq_refl) as ((l & H) & _).
  exists l. exact H.
Defined.












(** ** Price texts *)

Lemma remove_char_app c a b :
  Py.remove_char c (a ++ b)%string
  = (Py.remove_char c a ++ Py.remove_char c b)%string.
Proof.
  induction a as [|x a IH]; simpl; [reflexivity|].
  destruct (Ascii.eqb x c); simpl; rewrite IH; reflexivity.
Qed.

(** X15.  A dollar sign or a comma is dropped wherever it stands in the price
    text: the price is read as if it were not there, so the grouping of
    the digits is not checked. *)
Theorem separators_ignored_anywhere a b st :
  price_of_text (a ++ "," ++ b)%string st = price_of_text (a ++ b)%string st
  /\ price_of_text (a ++ "$" ++ b)%string st = price_of_text (a ++ b)%string st.
Proof.
  unfold price_of_text. split; rewrite !remove_char_app; reflexivity.
Qed.

(** *** Whole-number prices *)

Lemma digit_cases d :
  is_decimal_digit d ->
  d = 0 \/ d = 1 \/ d = 2 \/ d = 3 \/ d = 4 \/ d = 5 \/ d = 6 \/ d = 7
  \/ d = 8 \/ d = 9.
Proof. unfold is_decimal_digit. lia. Qed.

Ltac each_digit d H :=
  destruct (digit_cases H) as [->|[->|[->|[->|[->|[->|[->|[->|[->| ->]]]]]]]]].

Lemma digit_char_facts d :
  is_decimal_digit d ->
  Py.is_digit (Py.digit_char d) = true
  /\ Py.digit_val (Py.digit_char d) = d
  /\ Py.is_space (Py.digit_char d) = false
  /\ Ascii.eqb (Py.digit_char d) "_" = false
  /\ Ascii.eqb (Py.digit_char d) "$" = false
  /\ Ascii.eqb (Py.digit_char d) "," = false
  /\ Py.take_sign (Py.digit_char d :: nil) = (false, Py.digit_char d :: nil).
Proof. intros H. each_digit d H; repeat split. Qed.

Lemma take_sign_digit d rest :
  is_decimal_digit d ->
  Py.take_sign (Py.digit_char d :: rest) = (false, Py.digit_char d :: rest).
Proof. intros H. each_digit d H; reflexivity. Qed.

Lemma not_underscore d :
  is_decimal_digit d ->
  match Some (Py.digit_char d) with
  | Some "_"%char => true
  | _ => false
  end = false.
Proof. intros H. each_digit d H; reflexivity. Qed.

Lemma take_digits_cons acc n c rest :
  Py.take_digits acc n (c :: rest)
  = if Py.is_digit c
    then Py.take_digits (10 * acc + Py.digit_val c) (n + 1) rest
    else (acc, n, c :: rest).
Proof. reflexivity. Qed.

Lemma take_digits_numeral ds :
  Forall is_decimal_digit ds ->
  forall acc n,
    Py.take_digits acc n (map Py.digit_char ds)
    = (fold_left (fun a d => 10 * a + d) ds acc,
       n + Z.of_nat (List.length ds), []).
Proof.
  induction 1 as [|d ds Hd _ IH]; intros acc n.
  - cbn [map fold_left List.length Py.take_digits]. rewrite Z.add_0_r.
    reflexivity.
  - cbn [map fold_left List.length]. rewrite take_digits_cons.
    destruct (digit_char_facts Hd) as (-> & -> & _). rewrite IH.
    f_equal. f_equal. lia.
Qed.

Lemma drop_spaces_numeral ds :
  Forall is_decimal_digit ds ->
  Py.drop_spaces (map Py.digit_char ds) = map Py.digit_char ds.
Proof.
  intros [|d ds' Hd _]; [reflexivity|].
  cbn [map Py.drop_spaces].
  destruct (digit_char_facts Hd) as (_ & _ & -> & _). reflexivity.
Qed.

Lemma strip_numeral ds :
  Forall is_decimal_digit ds ->
  Py.strip (map Py.digit_char ds) = map Py.digit_char ds.
Proof.
  intros H. unfold Py.strip. rewrite (drop_spaces_numeral H).
  rewrite <- map_rev. rewrite drop_spaces_numeral.
  - rewrite map_rev. apply rev_involutive.
  - apply Forall_rev. exact H.
Qed.

Lemma drop_underscores_cons prev c rest :
  Py.drop_underscores prev (c :: rest)
  = if Ascii.eqb c "_" then
      match prev with
      | Some p => if Py.is_digit p then Py.drop_underscores (Some c) rest else None
      | None => None
      end
    else
      if (match prev with Some "_"%char => true | _ => false end
          && negb (Py.is_digit c))%bool
      then None
      else option_map (cons c) (Py.drop_underscores (Some c) rest).
Proof. reflexivity. Qed.

Lemma drop_underscores_numeral ds :
  Forall is_decimal_digit ds ->
  forall prev,
    match prev with Some "_"%char => true | _ => false end = false ->
    Py.drop_underscores prev (map Py.digit_char ds)
    = Some (map Py.digit_char ds).
Proof.
  induction 1 as [|d ds Hd _ IH]; intros prev Hprev.
  - cbn [map Py.drop_underscores].
    destruct prev as [c|]; [|reflexivity].
    destruct c as [[] [] [] [] [] [] [] []]; try reflexivity; discriminate.
  - cbn [map]. rewrite drop_underscores_cons.
    destruct (digit_char_facts Hd) as (Hdig & _ & _ & -> & _).
    rewrite Hprev. cbn [andb].
    rewrite (IH (Some (Py.digit_char d)) (not_underscore Hd)).
    reflexivity.
Qed.

Lemma remove_char_numeral c ds :
  (forall d, is_decimal_digit d -> Ascii.eqb (Py.digit_char d) c = false) ->
  Forall is_decimal_digit ds ->
  Py.remove_char c (numeral ds) = numeral ds.
Proof.
  intros Hc. unfold numeral. induction 1 as [|d ds Hd _ IH].
  - reflexivity.
  - cbn [map string_of_list_ascii Py.remove_char].
    rewrite (Hc d Hd), IH. reflexivity.
Qed.

(** [float] reads a whole number from its digits. *)
Lemma float_of_numeral ds :
  ds <> [] ->
  Forall is_decimal_digit ds ->
  Py.float_of_string (numeral ds)
  = Some (Py.float_of_ratio false (decimal_value ds) 1).
Proof.
  intros Hne Hds. unfold Py.float_of_string, numeral.
  rewrite list_ascii_of_string_of_list_ascii, (strip_numeral Hds).
  rewrite (drop_underscores_numeral Hds None eq_refl).
  destruct ds as [|d ds]; [congruence|].
  inversion Hds as [|? ? Hd Hrest]; subst.
  change (map Py.digit_char (d :: ds))
    with (Py.digit_char d :: map Py.digit_char ds).
  rewrite (take_sign_digit _ Hd).
  change (Py.digit_char d :: map Py.digit_char ds)
    with (map Py.digit_char (d :: ds)).
  unfold Py.parse_unsigned. rewrite (take_digits_numeral Hds).
  replace (0 + Z.of_nat (List.length (d :: ds)) + 0 =? 0) with false
    by (symmetry; apply Z.eqb_neq; cbn [List.length]; lia).
  cbn [Py.take_exponent]. cbv iota beta.
  unfold Py.float_of_decimal.
  replace (0 - 0) with 0 by lia.
  change (0 <=? 0) with true. cbv iota.
  rewrite Z.pow_0_r, Z.mul_1_r. reflexivity.
Qed.

Lemma round_half_even_1 x : Py.round_half_even x 1 = x.
Proof.
  unfold Py.round_half_even. rewrite Z.div_1_r, Z.mod_1_r. reflexivity.
Qed.

(** A whole number below [2 ^ 53] is a double, exactly: in units of
    [2 ^ -1074] its double is [v * 2 ^ 1074]. *)
Lemma float_of_whole v :
  0 <= v < 2 ^ 53 ->
  exists m e,
    Py.float_of_ratio false v 1 = Py.FFin false m e
    /\ -1074 <= e
    /\ m * 2 ^ (e + 1074) = v * 2 ^ 1074.
Proof.
  intros (Hlo & Hhi). unfold Py.float_of_ratio.
  destruct (Z.eqb_spec v 0) as [->|Hv].
  - exists 0, (-1074). repeat split; reflexivity || lia.
  - assert (Hpos : 0 < v) by lia.
    change (Z.log2 1) with 0. rewrite Z.sub_0_r.
    set (k := Z.log2 v).
    assert (Hk0 : 0 <= k) by apply Z.log2_nonneg.
    assert (Hk : k < 53) by (apply Z.log2_lt_pow2; assumption).
    destruct (Z.log2_spec v Hpos) as (Hk1 & Hk2). fold k in Hk1, Hk2.
    assert (Hge : Py.ge_pow2 v 1 k = true).
    { unfold Py.ge_pow2. destruct (Z.leb_spec 0 k); [|lia].
      apply Z.leb_le. lia. }
    rewrite Hge. rewrite Z.max_l by lia.
    assert (Hm : (if 0 <=? k - 52
                  then Py.round_half_even v (1 * 2 ^ (k - 52))
                  else Py.round_half_even (v * 2 ^ (- (k - 52))) 1)
                 = v * 2 ^ (52 - k)).
    { destruct (Z.leb_spec 0 (k - 52)).
      - assert (k = 52) as -> by lia. change (52 - 52) with 0.
        rewrite !Z.pow_0_r, !Z.mul_1_r. apply round_half_even_1.
      - rewrite round_half_even_1. f_equal. f_equal. lia. }
    rewrite Hm.
    assert (Hlt : v * 2 ^ (52 - k) < 2 ^ 53).
    { replace (2 ^ 53) with (2 ^ Z.succ k * 2 ^ (52 - k))
        by (rewrite <- Z.pow_add_r by lia; f_equal; lia).
      apply Z.mul_lt_mono_pos_r; [apply Z.pow_pos_nonneg; lia|exact Hk2]. }
    destruct (Z.eqb_spec (v * 2 ^ (52 - k)) (2 ^ 53)) as [E|_]; [lia|].
    destruct (Z.ltb_spec 971 (k - 52)); [lia|].
    exists (v * 2 ^ (52 - k)), (k - 52). split; [reflexivity|].
    split; [lia|].
    rewrite <- Z.mul_assoc, <- Z.pow_add_r by lia. f_equal. f_equal. lia.
Qed.

Lemma mul_compare_r a b p : 0 < p -> (a * p ?= b * p) = (a ?= b).
Proof.
  intros Hp. destruct (Z.compare_spec a b) as [->|H|H].
  - apply Z.compare_refl.
  - apply Z.compare_lt_iff. apply Z.mul_lt_mono_pos_r; assumption.
  - apply Z.compare_gt_iff. apply Z.mul_lt_mono_pos_r; assumption.
Qed.

Lemma fle_of_whole a b :
  0 <= a < 2 ^ 53 ->
  0 <= b < 2 ^ 53 ->
  Py.fle (Py.float_of_ratio false a 1) (Py.float_of_ratio false b 1)
  = (a <=? b).
Proof.
  intros Ha Hb.
  destruct (float_of_whole Ha) as (ma & ea & -> & _ & Ka).
  destruct (float_of_whole Hb) as (mb & eb & -> & _ & Kb).
  unfold Py.fle, Py.fcompare. change (0 ?= 0) with Eq. cbv iota.
  rewrite Ka, Kb.
  rewrite mul_compare_r by (apply Z.pow_pos_nonneg; lia).
  unfold Z.leb. destruct (a ?= b); reflexivity.
Qed.

Lemma in_price_range_of_whole v :
  0 <= v < 2 ^ 53 ->
  in_price_range (Py.float_of_ratio false v 1)
  = ((100 <=? v) && (v <=? 500))%bool.
Proof.
  intros Hv. unfold in_price_range.
  change (Py.float_of_Z 100) with (Py.float_of_ratio false 100 1).
  change (Py.float_of_Z 500) with (Py.float_of_ratio false 500 1).
  assert (H100 : 0 <= 100 < 2 ^ 53) by (split; [lia|reflexivity]).
  assert (H500 : 0 <= 500 < 2 ^ 53) by (split; [lia|reflexivity]).
  rewrite (fle_of_whole H100 Hv), (fle_of_whole Hv H500). reflexivity.
Qed.

Lemma decimal_value_nonneg ds :
  Forall is_decimal_digit ds -> 0 <= decimal_value ds.
Proof.
  unfold decimal_value. intros H.
  assert (G : forall acc, 0 <= acc ->
                          0 <= fold_left (fun a d => 10 * a + d) ds acc).
  { induction H as [|d ds (Hd & _) _ IH]; intros acc Hacc;
      cbn [fold_left]; [exact Hacc|].
    apply IH. lia. }
  apply G. lia.
Qed.

(** X16.  A price shown as a dollar sign and a whole number below [2 ^ 53]
    passes the price assertion exactly when the number lies between 100
    and 500, both bounds included; otherwise the assertion fails (it is not
    a parse error). *)
Theorem whole_price_within_inclusive_bounds ds :
  ds <> [] ->
  Forall is_decimal_digit ds ->
  decimal_value ds < 2 ^ 53 ->
  price_check ("$" ++ numeral ds)
  = if ((100 <=? decimal_value ds) && (decimal_value ds <=? 500))%bool
    then inr tt
    else inl (Exn AssertionError
                ("Villa price "
                   ++ Py.repr_float (Py.float_of_ratio false (decimal_value ds) 1)
                   ++ " out of range") None).
Proof.
  intros Hne Hds Hlt.
  assert (Hclean : cleaned ("$" ++ numeral ds) = numeral ds).
  { unfold cleaned. change ("$" ++ numeral ds)%string
      with (String "$" (numeral ds)).
    cbn [Py.remove_char]. change (Ascii.eqb "$" "$") with true. cbv iota.
    rewrite (@remove_char_numeral "$" ds), (@remove_char_numeral "," ds);
      auto; intros d Hd; apply (digit_char_facts Hd). }
  unfold price_check. rewrite Hclean, (float_of_numeral Hne Hds).
  rewrite in_price_range_of_whole
    by (split; [apply decimal_value_nonneg; exact Hds|exact Hlt]).
  reflexivity.
Qed.

Lemma whole_price_within_inclusive_bounds_witness :
  price_check "$500" = inr tt /\ price_check "$100" = inr tt.
Proof.
  split.
  - apply (@whole_price_within_inclusive_bounds [5; 0; 0]).
    + discriminate.
    + repeat constructor; unfold is_decimal_digit; lia.
    + reflexivity.
  - apply (@whole_price_within_inclusive_bounds [1; 0; 0]).
    + discriminate.
    + repeat constructor; unfold is_decimal_digit; lia.
    + reflexivity.
Defined.
